(** * Shared memory on QNX Neutrino: [src/backend/port/nto_shmem.c]

    A shallow embedding of the PostgreSQL port file [nto_shmem.c] and the
    properties of its segment name derivation, liveness probe, segment
    creation, detach and exit-time removal.

    Conventions of the embedding.
    - A C string is the [string] of the characters before its terminating
      NUL.
    - Integers are values of [Z]; conversions between C types that can
      change a value are written out ([int_of_Size], [Size_of_int]).
    - The functions of the file interact with the operating system and the
      C library through calls.  A function body is a finite tree of calls
      ([prog]); [exec] runs a tree against any environment ([handler]),
      and [posix] is one environment: a name space of shared-memory
      objects in which calls can be made to fail.
    - The globals the file reads and writes ([DataDir], [huge_pages],
      [UsedShmemSegAddr], [UsedShmemSegSize]), the header structs in
      mapped memory and the pointer variables written through a
      [PGShmemHeader **] form the process state [Proc], passed
      explicitly. *)

From Stdlib Require Import ZArith String Ascii List Bool Lia.
From stdpp Require Import base gmap strings list.

Local Open Scope string_scope.
Local Open Scope Z_scope.

(** ** C strings *)

Module CString.

(** [strcpy(dst, src)]: afterwards [dst] holds the characters of [src]. *)
Definition strcpy (src : string) : string := src.

(** [strncat(dst, src, n)]: appends at most [n] characters of [src]. *)
Definition strncat (dst src : string) (n : nat) : string :=
  dst +:+ String.substring 0 n src.

(** The characters of a string, as a list. *)
Fixpoint chars_of (s : string) : list ascii :=
  match s with
  | EmptyString => []
  | String c s' => c :: chars_of s'
  end.

(** The double quote, for messages that contain one. *)
Definition dquote : string := String (ascii_of_nat 34) EmptyString.

End CString.

(** ** The name of the segment: [GenerateSHMName] *)

Module Name.
Import CString.

Definition prefix : string := "/PostgreSQL.".

(** The loop of [GenerateSHMName]: [dd] is the rest of [DataDir] still to
    scan, [chars] the per-segment counter, [name] the buffer contents.
    [chars++ < 2] tests the old value and increments in either case. *)
Fixpoint GenerateSHMName_loop (dd : string) (chars : Z) (name : string)
  : string :=
  match dd with
  | EmptyString => name
  | String c dd' =>
      if Ascii.eqb c "/"%char then GenerateSHMName_loop dd' 0 name
      else if chars <? 2
           then GenerateSHMName_loop dd' (chars + 1) (strncat name dd 1)
           else GenerateSHMName_loop dd' (chars + 1) name
  end.

(** [GenerateSHMName(name)]: the string the function leaves in [name].
    The function receives a bare [char *] and never looks at the size of
    the array behind it; the callers' arrays are modelled where they are
    declared ([char_array] below).  The test [name == NULL] after the
    [strcpy] cannot succeed for the callers' arrays. *)
Definition GenerateSHMName (DataDir : string) : string :=
  GenerateSHMName_loop DataDir 0 (strcpy prefix).

(** *** The derivation in the words of the specification *)

(** The segments of a path: the pieces between directory separators. *)
Fixpoint segments (path : string) : list string :=
  match path with
  | EmptyString => [EmptyString]
  | String c path' =>
      if Ascii.eqb c "/"%char then EmptyString :: segments path'
      else match segments path' with
           | s :: rest => String c s :: rest
           | [] => [String c EmptyString]
           end
  end.

(** At most the first two characters of a segment. *)
Definition first_two (seg : string) : string := String.substring 0 2 seg.

Definition derived_suffix (path : string) : string :=
  String.concat "" (map first_two (segments path)).

End Name.

(** ** Build and platform configuration

    What the file takes from headers that are not part of it: the
    preprocessor symbols its conditional code tests, and the layout
    constants of [c.h] and [pg_shmem.h]. *)

Record Config := {
  EXEC_BACKEND : bool;          (* defined(EXEC_BACKEND) *)
  MAP_HUGETLB : bool;           (* defined(MAP_HUGETLB) *)
  USE_ASSERT_CHECKING : bool;   (* Assert() is compiled in *)
  SIZE_BITS : Z;                (* width of Size and uintptr_t *)
  MAXIMUM_ALIGNOF : Z;
  sizeof_PGShmemHeader : Z;     (* sizeof(PGShmemHeader) *)
  PGShmemMagic : Z
}.

(** A configuration a compiler can produce: the alignment is a power of
    two, the header is not empty and its aligned size is a [Size]. *)
Definition Config_ok (cfg : Config) : Prop :=
  MAXIMUM_ALIGNOF cfg = 2 ^ Z.log2 (MAXIMUM_ALIGNOF cfg) /\
  0 < sizeof_PGShmemHeader cfg /\
  sizeof_PGShmemHeader cfg + MAXIMUM_ALIGNOF cfg <= 2 ^ SIZE_BITS cfg.

(** ** Error reports *)

Inductive ErrLevel := ERROR | FATAL.

Inductive SqlState :=
| ERRCODE_OUT_OF_MEMORY
| ERRCODE_FEATURE_NOT_SUPPORTED
| ERRCODE_FILE_ACCESS.     (* what errcode_for_file_access() selects *)

Inductive MsgArg := ArgInt (n : Z) | ArgStr (s : string).

(** One [ereport]: [sqlerrcode] is [None] when the report makes no
    [errcode] call and the error facility's default applies. *)
Record ErrorData := {
  elevel : ErrLevel;
  sqlerrcode : option SqlState;
  message : string;
  message_args : list MsgArg
}.

(** The ways a function stops without returning. *)
Inductive abort :=
| Ereport (e : ErrorData)
| FailedAssertion
| BufferOverrun.          (* a write past the end of a [char] array *)

(** ** Calls to the operating system and the C library *)

Inductive oflag := O_RDWR | O_CREAT | O_EXCL.
Inductive protflag := PROT_READ | PROT_WRITE.
Inductive mapflag := MAP_SHARED | MAP_HASSEMAPHORE | MAP_NOSYNC.
Inductive callback := PGSharedMemoryDelete_callback.

Definition NULL : Z := 0.
Definition MAP_FAILED : Z := -1.

(** Error numbers of [<errno.h>]. *)
Definition ENOMEM : Z := 12.
Definition EEXIST : Z := 17.
Definition EFBIG : Z := 27.
Definition ENOENT : Z := 2.
Definition EBADF : Z := 9.
Definition EINVAL : Z := 22.

(** A call and the type of what it gives back.  [fstat] gives its return
    value and the [st_size] it stored; [errno] reads the error number;
    [strdup] gives the copy, or [None] for [NULL] when there is no memory
    for it.  The argument of [on_shmem_exit] is the [Datum] made from such
    a pointer. *)
Inductive call : Type -> Type :=
| shm_open (name : string) (flags : list oflag) (mode : Z) : call Z
| shm_unlink (name : string) : call Z
| close (fd : Z) : call Z
| fstat (fd : Z) : call (Z * Z)
| ftruncate (fd : Z) (len : Z) : call Z
| mmap (addr len : Z) (prot : list protflag) (flags : list mapflag)
       (fd off : Z) : call Z
| munmap (addr len : Z) : call Z
| getpid : call Z
| errno : call Z
| free (s : string) : call unit
| strdup (s : string) : call (option string)
| on_shmem_exit (function : callback) (arg : option string) : call unit.

(** A function body: it returns, stops, or makes a call and goes on with
    the answer. *)
Inductive prog (A : Type) : Type :=
| Ret (a : A)
| Stop (w : abort)
| Call {R : Type} (c : call R) (k : R -> prog A).

Arguments Ret {A} a.
Arguments Stop {A} w.
Arguments Call {A R} c k.

Fixpoint bind {A B : Type} (m : prog A) (f : A -> prog B) : prog B :=
  match m with
  | Ret a => f a
  | Stop w => Stop w
  | Call c k => Call c (fun r => bind (k r) f)
  end.

#[global] Instance prog_ret : MRet prog := @Ret.
#[global] Instance prog_bind : MBind prog := fun A B f m => bind m f.

Definition perform {R : Type} (c : call R) : prog R := Call c Ret.

(** *** Running a body against an environment *)

Definition handler (S : Type) : Type := forall R : Type, call R -> S -> R * S.

Inductive event :=
| Event {R : Type} (c : call R) (r : R).

Inductive outcome (A : Type) :=
| Done (a : A)
| Aborted (w : abort).

Arguments Done {A} a.
Arguments Aborted {A} w.

Record run (S A : Type) := Run {
  out : outcome A;
  final : S;
  trace : list event
}.

Arguments Run {S A} out final trace.
Arguments out {S A} r.
Arguments final {S A} r.
Arguments trace {S A} r.

Fixpoint exec {S A : Type} (h : handler S) (m : prog A) (s : S) : run S A :=
  match m with
  | Ret a => Run (Done a) s []
  | Stop w => Run (Aborted w) s []
  | Call c k =>
      let '(r, s1) := h _ c s in
      let rest := exec h (k r) s1 in
      Run (out rest) (final rest) (Event c r :: trace rest)
  end.

(** ** Process state *)

Inductive HugePagesType := HUGE_PAGES_OFF | HUGE_PAGES_ON | HUGE_PAGES_TRY.

Definition HugePagesType_eqb (a b : HugePagesType) : bool :=
  match a, b with
  | HUGE_PAGES_OFF, HUGE_PAGES_OFF
  | HUGE_PAGES_ON, HUGE_PAGES_ON
  | HUGE_PAGES_TRY, HUGE_PAGES_TRY => true
  | _, _ => false
  end.

(** The fields of [PGShmemHeader] the file writes. *)
Record PGShmemHeader := {
  magic : Z;
  creatorPID : Z;
  totalsize : Z;
  freeoffset : Z;
  dsm_control : Z
}.

(** Memory read before anything was stored there. *)
Definition unwritten : PGShmemHeader :=
  {| magic := 0; creatorPID := 0; totalsize := 0; freeoffset := 0;
     dsm_control := 0 |}.

(** [memory] holds, for a [PGShmemHeader *] of value [a], the header
    struct it points to; [pointers] holds, for a [PGShmemHeader **] of
    value [a], the pointer it points to. *)
Record Proc := {
  DataDir : string;
  huge_pages : HugePagesType;
  UsedShmemSegAddr : Z;           (* void *, NULL when nothing is mapped *)
  UsedShmemSegSize : Z;           (* int *)
  memory : gmap Z PGShmemHeader;
  pointers : gmap Z Z
}.

Definition set_UsedShmemSegAddr (a : Z) (p : Proc) : Proc :=
  {| DataDir := DataDir p; huge_pages := huge_pages p;
     UsedShmemSegAddr := a; UsedShmemSegSize := UsedShmemSegSize p;
     memory := memory p; pointers := pointers p |}.

Definition set_UsedShmemSegSize (n : Z) (p : Proc) : Proc :=
  {| DataDir := DataDir p; huge_pages := huge_pages p;
     UsedShmemSegAddr := UsedShmemSegAddr p; UsedShmemSegSize := n;
     memory := memory p; pointers := pointers p |}.

(** The process state with an empty handle: no address, no size. *)
Definition detached (p : Proc) : Proc :=
  set_UsedShmemSegSize 0 (set_UsedShmemSegAddr NULL p).

(** [hdr->field = v]: [f] replaces one field of the struct at [hdr]. *)
Definition store (hdr : Z) (f : PGShmemHeader -> PGShmemHeader) (p : Proc)
  : Proc :=
  {| DataDir := DataDir p; huge_pages := huge_pages p;
     UsedShmemSegAddr := UsedShmemSegAddr p;
     UsedShmemSegSize := UsedShmemSegSize p;
     memory := <[hdr := f (default unwritten (memory p !! hdr))]> (memory p);
     pointers := pointers p |}.

(** [*hdr]. *)
Definition load (hdr : Z) (p : Proc) : PGShmemHeader :=
  default unwritten (memory p !! hdr).

(** [*shim = hdr]. *)
Definition store_pointer (shim hdr : Z) (p : Proc) : Proc :=
  {| DataDir := DataDir p; huge_pages := huge_pages p;
     UsedShmemSegAddr := UsedShmemSegAddr p;
     UsedShmemSegSize := UsedShmemSegSize p;
     memory := memory p;
     pointers := <[shim := hdr]> (pointers p) |}.

Definition set_magic (v : Z) (h : PGShmemHeader) : PGShmemHeader :=
  {| magic := v; creatorPID := creatorPID h; totalsize := totalsize h;
     freeoffset := freeoffset h; dsm_control := dsm_control h |}.

Definition set_creatorPID (v : Z) (h : PGShmemHeader) : PGShmemHeader :=
  {| magic := magic h; creatorPID := v; totalsize := totalsize h;
     freeoffset := freeoffset h; dsm_control := dsm_control h |}.

Definition set_totalsize (v : Z) (h : PGShmemHeader) : PGShmemHeader :=
  {| magic := magic h; creatorPID := creatorPID h; totalsize := v;
     freeoffset := freeoffset h; dsm_control := dsm_control h |}.

Definition set_freeoffset (v : Z) (h : PGShmemHeader) : PGShmemHeader :=
  {| magic := magic h; creatorPID := creatorPID h; totalsize := totalsize h;
     freeoffset := v; dsm_control := dsm_control h |}.

Definition set_dsm_control (v : Z) (h : PGShmemHeader) : PGShmemHeader :=
  {| magic := magic h; creatorPID := creatorPID h; totalsize := totalsize h;
     freeoffset := freeoffset h; dsm_control := v |}.

(** ** The functions of [nto_shmem.c] *)

Section Shmem.
Import CString Name.

Variable cfg : Config.

(** Conversion to [uintptr_t] (and to [Size], which has its width). *)
Definition uintptr (x : Z) : Z := x mod 2 ^ SIZE_BITS cfg.

(** [TYPEALIGN] and [MAXALIGN] of [c.h]:
    [(((uintptr_t) (LEN) + ((ALIGNVAL) - 1)) & ~((uintptr_t) ((ALIGNVAL) - 1)))]. *)
Definition TYPEALIGN (alignval len : Z) : Z :=
  Z.land (uintptr (uintptr len + (alignval - 1)))
         (uintptr (Z.lnot (uintptr (alignval - 1)))).

Definition MAXALIGN (len : Z) : Z := TYPEALIGN (MAXIMUM_ALIGNOF cfg) len.

(** Conversion of a [Size] to [int], and of an [int] to [Size]. *)
Definition int_of_Size (n : Z) : Z := (n + 2 ^ 31) mod 2 ^ 32 - 2 ^ 31.
Definition Size_of_int (n : Z) : Z := uintptr n.

(** The permission bits [0600]. *)
Definition mode_0600 : Z := 6 * 64.

(** [Assert(condition)] of [c.h]: checked only in a build with
    [USE_ASSERT_CHECKING], otherwise compiled to nothing. *)
Definition Assert (condition : bool) : prog unit :=
  if USE_ASSERT_CHECKING cfg && negb condition
  then Stop FailedAssertion else Ret tt.

(** [ereport(elevel, (errcode, errmsg(message, args)))] at [ERROR] or
    [FATAL]: control does not come back. *)
Definition ereport {A : Type} (lvl : ErrLevel) (code : option SqlState)
    (msg : string) (margs : list MsgArg) : prog A :=
  Stop (Ereport {| elevel := lvl; sqlerrcode := code;
                   message := msg; message_args := margs |}).

(** [char name[n]] filled with [s]: the characters and the terminator
    must fit. *)
Definition char_array (n : nat) (s : string) : prog string :=
  if (String.length s <? n)%nat then Ret s else Stop BufferOverrun.

(** The derived name, with its terminator, fits the callers'
    [char name[64]]. *)
Definition name_fits (p : Proc) : Prop :=
  (String.length (GenerateSHMName (DataDir p)) < 64)%nat.

Definition errcode_for_dynamic_shared_memory : prog SqlState :=
  e ← perform errno;
  if (e =? EFBIG) || (e =? ENOMEM)
  then Ret ERRCODE_OUT_OF_MEMORY
  else Ret ERRCODE_FILE_ACCESS.

Definition PGSharedMemoryIsInUse (id1 id2 : Z) (p : Proc) : prog bool :=
  name ← char_array 64 (GenerateSHMName (DataDir p));
  fd ← perform (shm_open name [O_RDWR; O_CREAT; O_EXCL] mode_0600);
  if fd =? -1 then Ret true
  else
    perform (close fd);;
    perform (shm_unlink name);;
    Ret false.

Definition PGSharedMemoryCreate (size : Z) (makePrivate : bool) (port : Z)
    (shim : Z) (p : Proc) : prog (Z * Proc) :=
  (if (EXEC_BACKEND cfg || negb (MAP_HUGETLB cfg))
      && HugePagesType_eqb (huge_pages p) HUGE_PAGES_ON
   then ereport ERROR (Some ERRCODE_FEATURE_NOT_SUPPORTED)
          "huge pages not supported on this platform" []
   else Ret tt);;
  (* Room for a header? *)
  Assert (size >? MAXALIGN (sizeof_PGShmemHeader cfg));;
  name ← char_array 64 (GenerateSHMName (DataDir p));
  let p := set_UsedShmemSegAddr NULL p in
  fd ← perform (shm_open name [O_RDWR; O_CREAT] mode_0600);
  (if fd =? -1
   then e ← perform errno;
        ereport FATAL None
          "could not create shared memory segment: error code %d"
          [ArgInt e]
   else Ret tt);;
  (* try to get segment size *)
  '(rc, st_size) ← perform (fstat fd);
  (if negb (rc =? 0)
   then perform (close fd);;
        code ← errcode_for_dynamic_shared_memory;
        ereport FATAL (Some code)
          ("could not stat shared memory segment " +:+ dquote +:+ "%s"
             +:+ dquote +:+ ": %m")
          [ArgStr name]
   else Ret tt);;
  (* resize if needed *)
  resize_failed ← (if negb (size =? st_size)
                   then r ← perform (ftruncate fd size); Ret (r =? -1)
                   else Ret false);
  (if resize_failed : bool
   then perform (close fd);;
        ereport FATAL None
          ("could not resize shared memory segment " +:+ dquote +:+ "%s"
             +:+ dquote +:+ ": %m")
          [ArgStr name]
   else Ret tt);;
  address ← perform (mmap NULL size [PROT_READ; PROT_WRITE]
                       [MAP_SHARED; MAP_HASSEMAPHORE; MAP_NOSYNC] fd 0);
  (if address =? MAP_FAILED
   then perform (close fd);;
        code ← errcode_for_dynamic_shared_memory;
        ereport FATAL (Some code)
          ("could not map shared memory segment " +:+ dquote +:+ "%s"
             +:+ dquote +:+ ": %m")
          [ArgStr name]
   else Ret tt);;
  let hdr := address in
  let p := store hdr (set_magic (PGShmemMagic cfg)) p in
  pid ← perform getpid;
  let p := store hdr (set_creatorPID pid) p in
  let p := store hdr (set_totalsize size) p in
  let p := store hdr (set_freeoffset (MAXALIGN (sizeof_PGShmemHeader cfg))) p in
  let p := store hdr (set_dsm_control 0) p in
  let p := set_UsedShmemSegAddr address p in
  let p := set_UsedShmemSegSize (int_of_Size size) p in
  perform (close fd);;
  copy ← perform (strdup name);
  perform (on_shmem_exit PGSharedMemoryDelete_callback copy);;
  let p := store_pointer shim hdr p in
  Ret (hdr, p).

Definition PGSharedMemoryDetach (p : Proc) : prog (unit * Proc) :=
  name ← char_array 64 (GenerateSHMName (DataDir p));
  unmap_failed ← (if negb (UsedShmemSegAddr p =? NULL)
                  then r ← perform (munmap (UsedShmemSegAddr p)
                                      (Size_of_int (UsedShmemSegSize p)));
                       Ret (r =? -1)
                  else Ret false);
  (if unmap_failed : bool
   then code ← errcode_for_dynamic_shared_memory;
        ereport FATAL (Some code)
          ("could not unmap shared memory segment " +:+ dquote +:+ "%s"
             +:+ dquote +:+ ": %m")
          [ArgStr name]
   else Ret tt);;
  let p := set_UsedShmemSegAddr NULL p in
  let p := set_UsedShmemSegSize NULL p in
  Ret (tt, p).

Definition PGSharedMemoryDelete (status : Z) (dname : string) (p : Proc)
  : prog (unit * Proc) :=
  let name := dname in
  '(_, p) ← PGSharedMemoryDetach p;
  r ← perform (shm_unlink name);
  (if r =? -1
   then code ← errcode_for_dynamic_shared_memory;
        ereport FATAL (Some code)
          ("could not remove shared memory segment " +:+ dquote +:+ "%s"
             +:+ dquote +:+ ": %m")
          [ArgStr name]
   else Ret tt);;
  perform (free name);;
  Ret (tt, p).

End Shmem.

(** ** An environment: the name space of shared-memory objects

    [objects] maps the name of each existing shared-memory object to its
    size, [descriptors] maps each open descriptor to the name it was
    opened under.  [faults] makes calls fail for reasons outside the name
    space (no memory, no descriptors, no permission): every call that can
    fail takes the next entry, and fails with that error number when the
    entry holds one. *)

Module Posix.

#[global] Instance oflag_eq_dec : EqDecision oflag.
Proof. solve_decision. Defined.

Record OS := {
  objects : gmap string Z;
  descriptors : gmap Z string;
  next_fd : N;                     (* the next free descriptor *)
  map_address : N;                 (* where mmap places a mapping *)
  pid : Z;
  last_errno : Z;
  faults : list (option Z);
  exit_hooks : list (callback * option string)
}.

Definition with_objects (o : gmap string Z) (s : OS) : OS :=
  {| objects := o; descriptors := descriptors s; next_fd := next_fd s;
     map_address := map_address s; pid := pid s;
     last_errno := last_errno s; faults := faults s;
     exit_hooks := exit_hooks s |}.

Definition with_descriptors (d : gmap Z string) (n : N) (s : OS) : OS :=
  {| objects := objects s; descriptors := d; next_fd := n;
     map_address := map_address s; pid := pid s;
     last_errno := last_errno s; faults := faults s;
     exit_hooks := exit_hooks s |}.

Definition with_errno (e : Z) (s : OS) : OS :=
  {| objects := objects s; descriptors := descriptors s;
     next_fd := next_fd s; map_address := map_address s; pid := pid s;
     last_errno := e; faults := faults s; exit_hooks := exit_hooks s |}.

Definition with_faults (f : list (option Z)) (s : OS) : OS :=
  {| objects := objects s; descriptors := descriptors s;
     next_fd := next_fd s; map_address := map_address s; pid := pid s;
     last_errno := last_errno s; faults := f;
     exit_hooks := exit_hooks s |}.

Definition with_exit_hooks (l : list (callback * option string)) (s : OS)
  : OS :=
  {| objects := objects s; descriptors := descriptors s;
     next_fd := next_fd s; map_address := map_address s; pid := pid s;
     last_errno := last_errno s; faults := faults s; exit_hooks := l |}.

(** Whether the next call that can fail is scheduled to. *)
Definition next_call_fails (s : OS) : bool :=
  match faults s with
  | Some _ :: _ => true
  | _ => false
  end.

(** The next entry of the fault schedule; an exhausted schedule injects
    nothing. *)
Definition next_fault (s : OS) : option Z * OS :=
  match faults s with
  | [] => (None, s)
  | f :: rest => (f, with_faults rest s)
  end.

(** A new descriptor for the object [name]. *)
Definition open_descriptor (name : string) (s : OS) : Z * OS :=
  (Z.of_N (next_fd s),
   with_descriptors (<[Z.of_N (next_fd s) := name]> (descriptors s))
     (next_fd s + 1)%N s).

Definition do_shm_open (name : string) (flags : list oflag) (s : OS)
  : Z * OS :=
  match objects s !! name with
  | Some _ =>
      if bool_decide (O_CREAT ∈ flags) && bool_decide (O_EXCL ∈ flags)
      then (-1, with_errno EEXIST s)
      else open_descriptor name s
  | None =>
      if bool_decide (O_CREAT ∈ flags)
      then open_descriptor name (with_objects (<[name := 0]> (objects s)) s)
      else (-1, with_errno ENOENT s)
  end.

Definition do_shm_unlink (name : string) (s : OS) : Z * OS :=
  match objects s !! name with
  | Some _ => (0, with_objects (delete name (objects s)) s)
  | None => (-1, with_errno ENOENT s)
  end.

Definition do_close (fd : Z) (s : OS) : Z * OS :=
  match descriptors s !! fd with
  | Some _ => (0, with_descriptors (delete fd (descriptors s)) (next_fd s) s)
  | None => (-1, with_errno EBADF s)
  end.

(** The object behind a descriptor, with its size. *)
Definition object_of (fd : Z) (s : OS) : option (string * Z) :=
  name ← descriptors s !! fd;
  size ← objects s !! name;
  Some (name, size).

Definition do_fstat (fd : Z) (s : OS) : (Z * Z) * OS :=
  match object_of fd s with
  | Some (_, size) => ((0, size), s)
  | None => ((-1, 0), with_errno EBADF s)
  end.

Definition do_ftruncate (fd len : Z) (s : OS) : Z * OS :=
  match object_of fd s with
  | Some (name, _) => (0, with_objects (<[name := len]> (objects s)) s)
  | None => (-1, with_errno EBADF s)
  end.

(** A mapping of no bytes is refused. *)
Definition do_mmap (len fd : Z) (s : OS) : Z * OS :=
  if len =? 0 then (MAP_FAILED, with_errno EINVAL s)
  else
    match object_of fd s with
    | Some _ => (Z.of_N (map_address s), s)
    | None => (MAP_FAILED, with_errno EBADF s)
    end.

(** A call that can fail: it fails with the scheduled error number, or
    else does what the name space says. *)
Definition fallible {R : Type} (failure : R) (normal : OS -> R * OS)
    (s : OS) : R * OS :=
  let '(f, s) := next_fault s in
  match f with
  | Some e => (failure, with_errno e s)
  | None => normal s
  end.

Definition posix : handler OS :=
  fun R c =>
    match c in call R return OS -> R * OS with
    | shm_open name flags _ => fallible (-1) (do_shm_open name flags)
    | shm_unlink name => fallible (-1) (do_shm_unlink name)
    | close fd => fallible (-1) (do_close fd)
    | fstat fd => fallible (-1, 0) (do_fstat fd)
    | ftruncate fd len => fallible (-1) (do_ftruncate fd len)
    | mmap _ len _ _ fd _ => fallible MAP_FAILED (do_mmap len fd)
    | munmap _ _ => fallible (-1) (fun s => (0, s))
    | getpid => fun s => (pid s, s)
    | errno => fun s => (last_errno s, s)
    | free _ => fun s => (tt, s)
    | strdup name => fallible None (fun s => (Some name, s))
    | on_shmem_exit f arg =>
        fun s => (tt, with_exit_hooks (exit_hooks s ++ [(f, arg)]) s)
    end.

End Posix.

(** ** Reports of the file, by name *)

Module Report.
Import CString.

(** The report of [PGSharedMemoryCreate] when huge pages are requested
    and the build cannot provide them. *)
Definition huge_pages_report : ErrorData :=
  {| elevel := ERROR;
     sqlerrcode := Some ERRCODE_FEATURE_NOT_SUPPORTED;
     message := "huge pages not supported on this platform";
     message_args := [] |}.

(** The report of [PGSharedMemoryCreate] when [shm_open] fails with the
    error number [e]. *)
Definition create_report (e : Z) : ErrorData :=
  {| elevel := FATAL;
     sqlerrcode := None;
     message := "could not create shared memory segment: error code %d";
     message_args := [ArgInt e] |}.

(** The class [errcode_for_dynamic_shared_memory] gives the error number
    [e]. *)
Definition dsm_class (e : Z) : SqlState :=
  if (e =? EFBIG) || (e =? ENOMEM)
  then ERRCODE_OUT_OF_MEMORY else ERRCODE_FILE_ACCESS.

(** The reports made through [errcode_for_dynamic_shared_memory]:
    "could not [what] shared memory segment "[name]": %m". *)
Definition segment_report (what : string) (name : string) (e : Z)
  : ErrorData :=
  {| elevel := FATAL;
     sqlerrcode := Some (dsm_class e);
     message := "could not " +:+ what +:+ " shared memory segment "
                  +:+ dquote +:+ "%s" +:+ dquote +:+ ": %m";
     message_args := [ArgStr name] |}.

End Report.

(** ** Concrete configurations, processes and environments *)

Module Sample.
Import Posix.

(** A 32-bit build without huge pages, with and without assertion
    checking. *)
Definition production : Config :=
  {| EXEC_BACKEND := false; MAP_HUGETLB := false;
     USE_ASSERT_CHECKING := false; SIZE_BITS := 32; MAXIMUM_ALIGNOF := 8;
     sizeof_PGShmemHeader := 36; PGShmemMagic := 679834894 |}.

Definition cassert : Config :=
  {| EXEC_BACKEND := false; MAP_HUGETLB := false;
     USE_ASSERT_CHECKING := true; SIZE_BITS := 32; MAXIMUM_ALIGNOF := 8;
     sizeof_PGShmemHeader := 36; PGShmemMagic := 679834894 |}.

Definition postmaster (dir : string) (hp : HugePagesType) : Proc :=
  {| DataDir := dir; huge_pages := hp; UsedShmemSegAddr := NULL;
     UsedShmemSegSize := 0; memory := ∅; pointers := ∅ |}.

Definition boot (schedule : list (option Z)) : OS :=
  {| objects := ∅; descriptors := ∅; next_fd := 3%N;
     map_address := 268435456%N; pid := 4711; last_errno := 0;
     faults := schedule; exit_hooks := [] |}.

Definition data_directory : string := "/var/lib/postgresql/data".

(** The address of the pointer variable the caller passes as [shim]. *)
Definition shim_variable : Z := 134512640.

(** A process that inherited a mapping of one megabyte. *)
Definition attached : Proc :=
  set_UsedShmemSegSize 1048576
    (set_UsedShmemSegAddr 268435456
       (postmaster data_directory HUGE_PAGES_OFF)).

(** What a run returned, or [d] when it stopped. *)
Definition returned {A : Type} (d : A) (r : run OS A) : A :=
  match out r with
  | Done a => a
  | Aborted _ => d
  end.

(** The postmaster creates a segment of one megabyte on a freshly
    booted system. *)
Definition created : run OS (Z * Proc) :=
  exec posix
    (PGSharedMemoryCreate production 1048576 false 5432 shim_variable
       (postmaster data_directory HUGE_PAGES_OFF))
    (boot []).

(** [n] directories of two letters each, one inside the other. *)
Fixpoint nested (n : nat) : string :=
  match n with
  | O => EmptyString
  | S k => "/ab" +:+ nested k
  end.

(** Thirty-two directories of two letters each. *)
Definition deep_directory : string :=
  "/aa/ab/ac/ad/ae/af/ag/ah/ai/aj/ak/al/am/an/ao/ap"
  +:+ "/ba/bb/bc/bd/be/bf/bg/bh/bi/bj/bk/bl/bm/bn/bo/bp".

End Sample.

(** ** Reading a trace *)

Module Trace.

Definition is_shm_unlink (e : event) : bool :=
  match e with Event (shm_unlink _) _ => true | _ => false end.

Definition is_munmap (e : event) : bool :=
  match e with Event (munmap _ _) _ => true | _ => false end.

Definition is_errno (e : event) : bool :=
  match e with Event errno _ => true | _ => false end.

Definition is_close (e : event) : bool :=
  match e with Event (close _) _ => true | _ => false end.

Definition is_close_of (fd : Z) (e : event) : bool :=
  match e with Event (close fd') _ => fd' =? fd | _ => false end.

(** How many events of a trace satisfy [f]. *)
Definition count (f : event -> bool) (t : list event) : nat :=
  length (List.filter f t).

(** The descriptor the first call gave, when that call is [shm_open]. *)
Definition opened (t : list event) : option Z :=
  match t with
  | Event (shm_open _ _ _) fd :: _ => Some fd
  | _ => None
  end.

(** What the first [fstat] of a trace gave: its return value and the
    size it stored. *)
Fixpoint stated (t : list event) : option (Z * Z) :=
  match t with
  | [] => None
  | Event (fstat _) answer :: _ => Some answer
  | _ :: rest => stated rest
  end.

(** The arguments of the [ftruncate] calls of a trace, in order. *)
Fixpoint resized (t : list event) : list (Z * Z) :=
  match t with
  | [] => []
  | Event (ftruncate fd len) _ :: rest => (fd, len) :: resized rest
  | _ :: rest => resized rest
  end.

(** The [strdup] calls of a trace, in order: the string and the copy
    (or [None] for [NULL]) the call gave. *)
Fixpoint duplicated (t : list event) : list (string * option string) :=
  match t with
  | [] => []
  | Event (strdup s) copy :: rest => (s, copy) :: duplicated rest
  | _ :: rest => duplicated rest
  end.

(** The exit hooks a trace registered, in order. *)
Fixpoint registered (t : list event) : list (callback * option string) :=
  match t with
  | [] => []
  | Event (on_shmem_exit f arg) _ :: rest => (f, arg) :: registered rest
  | _ :: rest => registered rest
  end.

(** The arguments of the [munmap] calls of a trace, in order. *)
Fixpoint unmapped (t : list event) : list (Z * Z) :=
  match t with
  | [] => []
  | Event (munmap addr len) _ :: rest => (addr, len) :: unmapped rest
  | _ :: rest => unmapped rest
  end.

End Trace.

(** ** The loader macros of [dynloader/nto-qnx.h] *)

Module Dynloader.

(** What the platform's [<dlfcn.h>] defines of the two mode flags. *)
Record dlfcn := {
  dlfcn_RTLD_NOW : option Z;
  dlfcn_RTLD_GLOBAL : option Z
}.

Section Macros.

Variable sys : dlfcn.

(** [NTO_derived_dlopen] is declared in the header and defined
    elsewhere. *)
Variable NTO_derived_dlopen : string -> Z -> Z.

(** [#ifndef RTLD_NOW] / [#define RTLD_NOW 1]. *)
Definition RTLD_NOW : Z := default 1 (dlfcn_RTLD_NOW sys).

(** [#ifndef RTLD_GLOBAL] / [#define RTLD_GLOBAL 0]. *)
Definition RTLD_GLOBAL : Z := default 0 (dlfcn_RTLD_GLOBAL sys).

(** [#define pg_dlopen(f) NTO_derived_dlopen((f), RTLD_NOW | RTLD_GLOBAL)]. *)
Definition pg_dlopen (f : string) : Z :=
  NTO_derived_dlopen f (Z.lor RTLD_NOW RTLD_GLOBAL).

End Macros.

End Dynloader.

(** ** More processes and environments *)

Module Scenario.
Import Posix Sample.

(** Two clusters side by side: their directories differ after the second
    character of the last segment only. *)
Definition data1 : string := "/var/lib/postgresql/data1".
Definition data2 : string := "/var/lib/postgresql/data2".

(** The name every process of [data_directory] derives. *)
Definition segment_name : string := "/PostgreSQL.valipoda".

(** A 64-bit build without huge pages. *)
Definition wide : Config :=
  {| EXEC_BACKEND := false; MAP_HUGETLB := false;
     USE_ASSERT_CHECKING := false; SIZE_BITS := 64; MAXIMUM_ALIGNOF := 8;
     sizeof_PGShmemHeader := 56; PGShmemMagic := 679834894 |}.

(** The system after [created], and the postmaster's state then. *)
Definition running : OS := final created.
Definition creator : Proc := snd (returned (0, attached) created).

(** The postmaster of a 64-bit build creates a segment of 2^31 bytes. *)
Definition created_wide : run OS (Z * Proc) :=
  exec posix
    (PGSharedMemoryCreate wide 2147483648 false 5432 shim_variable
       (postmaster data_directory HUGE_PAGES_OFF))
    (boot []).

(** A platform whose [<dlfcn.h>] has [RTLD_NOW] (as 2) and no
    [RTLD_GLOBAL], and a loader that answers with the mode it was given. *)
Definition old_dlfcn : Dynloader.dlfcn :=
  {| Dynloader.dlfcn_RTLD_NOW := Some 2;
     Dynloader.dlfcn_RTLD_GLOBAL := None |}.

Definition echo_mode (filename : string) (mode : Z) : Z := mode.

(** The postmaster exits: the hook runs with the name it was registered
    with. *)
Definition removed : run OS (unit * Proc) :=
  exec posix (PGSharedMemoryDelete production 0 segment_name creator) running.

End Scenario.

(** ** Tactics for running bodies *)

(** Unfolds the sequencing of a body and runs it up to its next call. *)
Ltac run_body :=
  repeat (progress (unfold mbind, prog_bind, perform,
                      errcode_for_dynamic_shared_memory, ereport;
                    cbn [bind exec out final trace negb app])).

(** The same in a hypothesis. *)
Ltac run_body_in H :=
  repeat (progress (unfold mbind, prog_bind, perform,
                      errcode_for_dynamic_shared_memory, ereport in H;
                    cbn [bind exec out final trace negb app] in H)).

(** Runs the body in hypothesis [H] one call or one test further; a
    branch in which the body stops contradicts a [Done] outcome. *)
Ltac step_in H :=
  run_body_in H;
  lazymatch type of H with
  | context [match ?x with pair _ _ => _ end] =>
      let E := fresh "Hcall" in destruct x eqn:E
  | context [if ?c then _ else _] =>
      let E := fresh "Htest" in destruct c eqn:E
  end;
  run_body_in H; try discriminate H.

(** Runs the body in hypothesis [H] one call or one test further, keeping
    every branch. *)
Ltac step_all H :=
  run_body_in H;
  lazymatch type of H with
  | context [match ?x with pair _ _ => _ end] =>
      let E := fresh "Hcall" in destruct x eqn:E
  | context [if ?c then _ else _] =>
      let E := fresh "Htest" in destruct c eqn:E
  end;
  run_body_in H.

(** Turns the tests recorded in the context into equations on the
    comparisons they negate, and rewrites the goal with them. *)
Ltac use_tests :=
  repeat match goal with
    | H : negb _ = true |- _ => apply negb_true_iff in H
    | H : negb _ = false |- _ => apply negb_false_iff in H
    end;
  repeat match goal with
    | H : ?c = true |- context [?c] => rewrite H
    | H : ?c = false |- context [?c] => rewrite H
    end.

(** * Properties *)

(** ** Strings *)

Section StringFacts.
Import CString.

Lemma append_cons (c : ascii) (s t : string) :
  String c s +:+ t = String c (s +:+ t).
Proof. reflexivity. Qed.

Lemma append_empty_l (t : string) : "" +:+ t = t.
Proof. reflexivity. Qed.

Lemma append_empty_r (s : string) : s +:+ "" = s.
Proof.
  induction s as [|c s IH]; [reflexivity|]. now rewrite append_cons, IH.
Qed.

Lemma append_assoc (s t u : string) : (s +:+ t) +:+ u = s +:+ (t +:+ u).
Proof.
  induction s as [|c s IH]; [reflexivity|]. now rewrite !append_cons, IH.
Qed.

Lemma chars_of_append (s t : string) :
  chars_of (s +:+ t) = (chars_of s ++ chars_of t)%list.
Proof.
  induction s as [|c s IH]; [reflexivity|].
  rewrite append_cons. simpl. now rewrite IH.
Qed.

Lemma length_append (s t : string) :
  String.length (s +:+ t) = (String.length s + String.length t)%nat.
Proof.
  induction s as [|c s IH]; [reflexivity|].
  rewrite append_cons. simpl. now rewrite IH.
Qed.

Lemma concat_empty_cons (x : string) (xs : list string) :
  String.concat "" (x :: xs) = x +:+ String.concat "" xs.
Proof.
  destruct xs as [|y ys]; simpl.
  - now rewrite append_empty_r.
  - reflexivity.
Qed.

Lemma substring_0_0 (s : string) : String.substring 0 0 s = "".
Proof. destruct s; reflexivity. Qed.

Lemma substring_0_empty (n : nat) : String.substring 0 n "" = "".
Proof. destruct n; reflexivity. Qed.

(** A leading piece of a string only holds characters of the string. *)
Lemma chars_of_substring_0 (n : nat) (s : string) (c : ascii) :
  In c (chars_of (String.substring 0 n s)) -> In c (chars_of s).
Proof.
  revert n; induction s as [|d s IH]; intros n H.
  - now rewrite substring_0_empty in H.
  - destruct n as [|n]; simpl in H; [contradiction|].
    destruct H as [H|H]; [now left | right; eauto].
Qed.

Lemma substring_0_prefix (n : nat) (s : string) :
  exists rest, s = String.substring 0 n s +:+ rest.
Proof.
  revert n; induction s as [|d s IH]; intros n.
  - exists "". now rewrite substring_0_empty.
  - destruct n as [|n]; simpl.
    + now exists (String d s).
    + destruct (IH n) as [rest Hrest]. exists rest.
      now rewrite append_cons, <- Hrest.
Qed.

Lemma substring_0_length (n : nat) (s : string) :
  (String.length (String.substring 0 n s) <= n)%nat.
Proof.
  revert n; induction s as [|d s IH]; intros n.
  - rewrite substring_0_empty. simpl. lia.
  - destruct n as [|n]; simpl; [lia|]. specialize (IH n). lia.
Qed.

End StringFacts.

(** ** The derived name *)

Section NameFacts.
Import CString Name.

Lemma segments_not_nil (path : string) : segments path <> [].
Proof.
  destruct path as [|c path]; simpl; [discriminate|].
  destruct (Ascii.eqb c "/"); [discriminate|].
  destruct (segments path); discriminate.
Qed.

(** What the loop adds to the buffer: of the segment it is in, the
    characters the counter still lets through; of every later segment,
    its first two. *)
Lemma GenerateSHMName_loop_segments (dd : string) :
  forall (chars : Z) (name : string),
    GenerateSHMName_loop dd chars name =
    match segments dd with
    | seg :: rest =>
        name +:+ String.substring 0 (Z.to_nat (2 - chars)) seg
             +:+ String.concat "" (map first_two rest)
    | [] => name
    end.
Proof.
  induction dd as [|c dd IH]; intros chars name.
  - cbn [GenerateSHMName_loop segments map String.concat].
    now rewrite substring_0_empty, !append_empty_r.
  - cbn [GenerateSHMName_loop segments].
    pose proof (segments_not_nil dd) as Hne.
    destruct (Ascii.eqb c "/") eqn:Hsep.
    + rewrite IH. destruct (segments dd) as [|seg rest]; [congruence|].
      rewrite substring_0_empty, append_empty_l. cbn [map].
      now rewrite concat_empty_cons.
    + destruct (chars <? 2) eqn:Hlt; rewrite IH;
        destruct (segments dd) as [|seg rest]; try congruence.
      * apply Z.ltb_lt in Hlt.
        replace (Z.to_nat (2 - chars))
          with (S (Z.to_nat (2 - (chars + 1)))) by lia.
        unfold strncat. cbn [String.substring].
        now rewrite substring_0_0, !append_assoc, !append_cons,
          append_empty_l.
      * apply Z.ltb_ge in Hlt.
        replace (Z.to_nat (2 - (chars + 1))) with 0%nat by lia.
        replace (Z.to_nat (2 - chars)) with 0%nat by lia.
        now rewrite !substring_0_0.
Qed.

Lemma GenerateSHMName_derived (DataDir : string) :
  GenerateSHMName DataDir = prefix +:+ derived_suffix DataDir.
Proof.
  unfold GenerateSHMName, derived_suffix, strcpy.
  rewrite GenerateSHMName_loop_segments.
  pose proof (segments_not_nil DataDir) as Hne.
  destruct (segments DataDir) as [|seg rest]; [congruence|].
  cbn [map]. now rewrite concat_empty_cons.
Qed.

(** The segments are the pieces between the separators: joined by
    separators they give the path back, and none holds a separator. *)
Lemma segments_join (path : string) :
  String.concat "/" (segments path) = path.
Proof.
  induction path as [|c path IH]; [reflexivity|].
  cbn [segments]. pose proof (segments_not_nil path) as Hne.
  destruct (Ascii.eqb c "/") eqn:Hsep.
  - apply Ascii.eqb_eq in Hsep. subst c.
    destruct (segments path) as [|seg rest]; [congruence|].
    change (String.concat "/" ("" :: seg :: rest))
      with ("" +:+ "/" +:+ String.concat "/" (seg :: rest)).
    now rewrite IH.
  - destruct (segments path) as [|seg [|seg' rest]]; [congruence| |].
    + cbn [String.concat] in *. now rewrite IH.
    + change (String.concat "/" (String c seg :: seg' :: rest))
        with (String c (seg +:+ "/" +:+ String.concat "/" (seg' :: rest))).
      change (String.concat "/" (seg :: seg' :: rest))
        with (seg +:+ "/" +:+ String.concat "/" (seg' :: rest)) in IH.
      now rewrite IH.
Qed.

Lemma segments_no_separator (path seg : string) :
  In seg (segments path) -> ~ In "/"%char (chars_of seg).
Proof.
  revert seg; induction path as [|c path IH]; intros seg Hin.
  - destruct Hin as [<-|[]]. simpl. tauto.
  - cbn [segments] in Hin. destruct (Ascii.eqb c "/") eqn:Hsep.
    + destruct Hin as [<-|Hin]; [simpl; tauto | now apply IH].
    + apply Ascii.eqb_neq in Hsep.
      destruct (segments path) as [|s rest].
      * destruct Hin as [<-|[]]. simpl. intros [H|[]]. congruence.
      * destruct Hin as [<-|Hin].
        -- simpl. intros [H|H]; [congruence|].
           now apply (IH s (or_introl eq_refl)).
        -- apply IH. now right.
Qed.

Lemma concat_first_two_no_separator (segs : list string) :
  (forall seg, In seg segs -> ~ In "/"%char (chars_of seg)) ->
  ~ In "/"%char (chars_of (String.concat "" (map first_two segs))).
Proof.
  induction segs as [|seg segs IH]; intros Hall; [simpl; tauto|].
  cbn [map]. rewrite concat_empty_cons, chars_of_append, in_app_iff.
  intros [H|H].
  - apply chars_of_substring_0 in H. now apply (Hall seg (or_introl eq_refl)).
  - revert H. apply IH. intros s Hs. apply Hall. now right.
Qed.

(** C6.  For every data-directory path the derived name is the fixed
    prefix followed by the first two characters (or fewer, when the
    segment is shorter) of each path segment between directory
    separators, in path order; no separator appears after the prefix;
    [/var/lib/postgresql/data] contributes [va], [li], [po], [da]. *)
Theorem GenerateSHMName_two_characters_per_segment :
  (forall DataDir : string,
      GenerateSHMName DataDir =
      prefix +:+ String.concat "" (map first_two (segments DataDir))) /\
  (forall DataDir : string,
      String.concat "/" (segments DataDir) = DataDir /\
      forall seg, In seg (segments DataDir) -> ~ In "/"%char (chars_of seg)) /\
  (forall seg : string,
      (String.length (first_two seg) <= 2)%nat /\
      exists rest, seg = first_two seg +:+ rest) /\
  (forall DataDir : string,
      ~ In "/"%char (chars_of (derived_suffix DataDir))) /\
  GenerateSHMName "/var/lib/postgresql/data" = prefix +:+ "valipoda".
Proof.
  split; [|split; [|split; [|split]]].
  - intros DataDir. apply GenerateSHMName_derived.
  - intros DataDir. split; [apply segments_join|].
    intros seg. apply segments_no_separator.
  - intros seg. split; [apply substring_0_length | apply substring_0_prefix].
  - intros DataDir. apply concat_first_two_no_separator.
    intros seg. apply segments_no_separator.
  - reflexivity.
Qed.

End NameFacts.

(** ** Running bodies *)

Section ExecFacts.
Context {S : Type} (h : handler S).

Lemma exec_bind {A B : Type} (m : prog A) (f : A -> prog B) (s : S) :
  exec h (m ≫= f) s =
  match out (exec h m s) with
  | Done a =>
      let rest := exec h (f a) (final (exec h m s)) in
      Run (out rest) (final rest) (trace (exec h m s) ++ trace rest)
  | Aborted w => Run (Aborted w) (final (exec h m s)) (trace (exec h m s))
  end.
Proof.
  unfold mbind, prog_bind. revert s.
  induction m as [a|w|R c k IH]; intros s; cbn [bind exec].
  - cbn [out final trace app]. now destruct (exec h (f a) s).
  - reflexivity.
  - destruct (h R c s) as [r s1]. rewrite IH. cbn [out final trace].
    now destruct (out (exec h (k r) s1)).
Qed.

End ExecFacts.

(** ** Alignment *)

Section AlignFacts.

Lemma land_clear_low_bits (W k x : Z) :
  0 <= k <= W -> 0 <= x < 2 ^ W ->
  Z.land x (Z.lnot (2 ^ k - 1) mod 2 ^ W) = x / 2 ^ k * 2 ^ k.
Proof.
  intros Hk Hx.
  rewrite <- Z.shiftr_div_pow2, <- Z.shiftl_mul_pow2 by lia.
  rewrite <- Z.ldiff_ones_r by lia.
  apply Z.bits_inj'. intros i Hi.
  rewrite Z.land_spec, Z.ldiff_spec.
  destruct (Z.lt_ge_cases i W) as [Hlow|Hhigh].
  - rewrite Z.mod_pow2_bits_low by lia.
    rewrite Z.lnot_spec by lia.
    now rewrite Z.ones_equiv, <- Z.sub_1_r.
  - assert (Z.testbit x i = false) as ->; [|reflexivity].
    destruct (Z.eq_dec x 0) as [->|Hnz]; [apply Z.bits_0|].
    apply Z.bits_above_log2; [lia|].
    assert (Z.log2 x < W) by (apply Z.log2_lt_pow2; lia). lia.
Qed.

Variable cfg : Config.
Hypothesis Hcfg : Config_ok cfg.

Let a := MAXIMUM_ALIGNOF cfg.
Let n := sizeof_PGShmemHeader cfg.

Lemma MAXIMUM_ALIGNOF_pos : 0 < a.
Proof.
  destruct Hcfg as (Hpow & _). subst a. rewrite Hpow.
  apply Z.pow_pos_nonneg; [lia | apply Z.log2_nonneg].
Qed.

Lemma MAXALIGN_header_round_up : MAXALIGN cfg n = (n + (a - 1)) / a * a.
Proof.
  pose proof MAXIMUM_ALIGNOF_pos as Hpos.
  destruct Hcfg as (Hpow & Hn & Hfit). fold a n in Hpow, Hn, Hfit.
  assert (0 <= SIZE_BITS cfg) as HW.
  { destruct (Z.lt_ge_cases (SIZE_BITS cfg) 0) as [Hneg|]; [|assumption].
    rewrite (Z.pow_neg_r 2 _ Hneg) in Hfit. lia. }
  assert (Z.log2 a < SIZE_BITS cfg) as Hk.
  { apply (Z.pow_lt_mono_r_iff 2); [lia | lia |]. rewrite <- Hpow. lia. }
  unfold MAXALIGN, TYPEALIGN, uintptr. fold a.
  rewrite (Z.mod_small n) by lia.
  rewrite (Z.mod_small (n + (a - 1))) by lia.
  rewrite (Z.mod_small (a - 1)) by lia.
  pose proof (Z.log2_nonneg a) as Hk0.
  clearbody a n. remember (Z.log2 a) as k eqn:Ek. clear Ek. subst a.
  apply land_clear_low_bits; lia.
Qed.

Lemma MAXALIGN_header_aligned : MAXALIGN cfg n mod a = 0.
Proof.
  pose proof MAXIMUM_ALIGNOF_pos.
  rewrite MAXALIGN_header_round_up. apply Z.mod_mul. lia.
Qed.

Lemma MAXALIGN_header_covers : n <= MAXALIGN cfg n.
Proof.
  pose proof MAXIMUM_ALIGNOF_pos as Hpos.
  rewrite MAXALIGN_header_round_up.
  pose proof (Z.div_mod (n + (a - 1)) a ltac:(lia)) as Hdm.
  pose proof (Z.mod_pos_bound (n + (a - 1)) a Hpos). lia.
Qed.

Lemma MAXALIGN_header_pos : 0 < MAXALIGN cfg n.
Proof.
  pose proof MAXALIGN_header_covers. destruct Hcfg as (_ & Hn & _).
  fold n in Hn. lia.
Qed.

End AlignFacts.

(** ** Creating the segment: what happens before the first call *)

Section CreateGuards.
Import CString Name Sample Report.

(** C9.  In a build that cannot provide huge pages ([EXEC_BACKEND]
    defined or [MAP_HUGETLB] not defined), [PGSharedMemoryCreate] with
    [huge_pages] set to on stops with a feature-not-supported error
    before any call: nothing is opened, created, resized or mapped. *)
Theorem PGSharedMemoryCreate_huge_pages_not_supported
    (cfg : Config) (size : Z) (makePrivate : bool) (port shim : Z) (p : Proc) :
  EXEC_BACKEND cfg || negb (MAP_HUGETLB cfg) = true ->
  huge_pages p = HUGE_PAGES_ON ->
  PGSharedMemoryCreate cfg size makePrivate port shim p
    = Stop (Ereport huge_pages_report) /\
  forall (S : Type) (h : handler S) (s : S),
    exec h (PGSharedMemoryCreate cfg size makePrivate port shim p) s
      = Run (Aborted (Ereport huge_pages_report)) s [].
Proof.
  intros Hbuild Hon.
  assert (PGSharedMemoryCreate cfg size makePrivate port shim p
          = Stop (Ereport huge_pages_report)) as Hstop.
  { unfold PGSharedMemoryCreate. rewrite Hbuild, Hon. reflexivity. }
  split; [exact Hstop|]. intros S h s. now rewrite Hstop.
Qed.

Lemma PGSharedMemoryCreate_huge_pages_not_supported_witness :
  EXEC_BACKEND production || negb (MAP_HUGETLB production) = true /\
  huge_pages (postmaster data_directory HUGE_PAGES_ON) = HUGE_PAGES_ON /\
  PGSharedMemoryCreate production 1048576 false 5432 shim_variable
      (postmaster data_directory HUGE_PAGES_ON)
    = Stop (Ereport huge_pages_report).
Proof.
  split; [reflexivity|]. split; [reflexivity|].
  apply (PGSharedMemoryCreate_huge_pages_not_supported
           production 1048576 false 5432 shim_variable
           (postmaster data_directory HUGE_PAGES_ON));
    reflexivity.
Defined.

(** C4, as the code has it.  In a build with assertion checking, for
    every requested size not strictly greater than the aligned header
    size, [PGSharedMemoryCreate] stops before any call, on the failed
    assertion or on the huge-pages error that precedes it: no
    shared-memory object is opened or created. *)
Theorem PGSharedMemoryCreate_asserts_room_for_header
    (cfg : Config) (size : Z) (makePrivate : bool) (port shim : Z) (p : Proc) :
  USE_ASSERT_CHECKING cfg = true ->
  size <= MAXALIGN cfg (sizeof_PGShmemHeader cfg) ->
  (PGSharedMemoryCreate cfg size makePrivate port shim p = Stop FailedAssertion \/
   PGSharedMemoryCreate cfg size makePrivate port shim p
     = Stop (Ereport huge_pages_report)) /\
  forall (S : Type) (h : handler S) (s : S),
    trace (exec h (PGSharedMemoryCreate cfg size makePrivate port shim p) s) = [] /\
    final (exec h (PGSharedMemoryCreate cfg size makePrivate port shim p) s) = s /\
    exists w,
      out (exec h (PGSharedMemoryCreate cfg size makePrivate port shim p) s)
        = Aborted w.
Proof.
  intros Hassert Hsmall.
  assert (exists w, PGSharedMemoryCreate cfg size makePrivate port shim p = Stop w
                    /\ (w = FailedAssertion \/ w = Ereport huge_pages_report))
    as (w & Hstop & Hw).
  { unfold PGSharedMemoryCreate, Assert. rewrite Hassert.
    assert ((size >? MAXALIGN cfg (sizeof_PGShmemHeader cfg)) = false) as ->
      by (rewrite Z.gtb_ltb; apply Z.ltb_ge; lia).
    destruct ((EXEC_BACKEND cfg || negb (MAP_HUGETLB cfg))
              && HugePagesType_eqb (huge_pages p) HUGE_PAGES_ON).
    - exists (Ereport huge_pages_report). split; [reflexivity | now right].
    - exists FailedAssertion. split; [reflexivity | now left]. }
  split.
  - destruct Hw as [-> | ->]; [now left | now right].
  - intros S h s. rewrite Hstop. cbn. eauto.
Qed.

Lemma PGSharedMemoryCreate_asserts_room_for_header_witness :
  USE_ASSERT_CHECKING cassert = true /\
  40 <= MAXALIGN cassert (sizeof_PGShmemHeader cassert) /\
  trace (exec Posix.posix
           (PGSharedMemoryCreate cassert 40 false 5432 shim_variable
              (postmaster data_directory HUGE_PAGES_OFF))
           (boot [])) = [].
Proof.
  split; [reflexivity|]. split; [vm_compute; discriminate|].
  apply (PGSharedMemoryCreate_asserts_room_for_header
           cassert 40 false 5432 shim_variable (postmaster data_directory HUGE_PAGES_OFF));
    [reflexivity | vm_compute; discriminate].
Defined.

(** C4, as stated, fails in a build without assertion checking: with a
    requested size of 40, which is the aligned header size of the build
    and so not strictly greater than it, the call goes on to open (and
    create) the shared-memory object, gives it that size, maps it and
    returns. *)
Lemma PGSharedMemoryCreate_unchecked_without_assertions :
  let r := exec Posix.posix
             (PGSharedMemoryCreate production 40 false 5432 shim_variable
                (postmaster data_directory HUGE_PAGES_OFF))
             (boot []) in
  USE_ASSERT_CHECKING production = false /\
  40 <= MAXALIGN production (sizeof_PGShmemHeader production) /\
  (exists x, out r = Done x) /\
  head (trace r)
    = Some (Event (shm_open "/PostgreSQL.valipoda" [O_RDWR; O_CREAT]
                     mode_0600) 3) /\
  Posix.objects (final r) !! "/PostgreSQL.valipoda" = Some 40.
Proof.
  cbv zeta. split; [reflexivity|]. split; [vm_compute; discriminate|].
  split; [eexists; vm_compute; reflexivity|].
  split; vm_compute; reflexivity.
Qed.

End CreateGuards.

(** ** Detaching *)

Section Detach.
Import CString Name Sample Report.

Variable cfg : Config.

Lemma char_array_fits (p : Proc) :
  name_fits p ->
  char_array 64 (GenerateSHMName (DataDir p))
    = Ret (GenerateSHMName (DataDir p)).
Proof.
  intros Hfit. unfold char_array.
  now apply Nat.ltb_lt in Hfit as ->.
Qed.

Lemma char_array_overrun (p : Proc) :
  ~ name_fits p ->
  char_array 64 (GenerateSHMName (DataDir p)) = Stop BufferOverrun.
Proof.
  intros Hfit. unfold char_array.
  destruct (Nat.ltb_spec (String.length (GenerateSHMName (DataDir p))) 64);
    [contradiction | reflexivity].
Qed.

Lemma PGSharedMemoryDetach_overrun (p : Proc) :
  ~ name_fits p -> PGSharedMemoryDetach cfg p = Stop BufferOverrun.
Proof.
  intros Hfit. unfold PGSharedMemoryDetach.
  now rewrite char_array_overrun.
Qed.

(** With an empty handle the function makes no call. *)
Lemma PGSharedMemoryDetach_unmapped (p : Proc) :
  name_fits p -> UsedShmemSegAddr p = NULL ->
  PGSharedMemoryDetach cfg p = Ret (tt, detached p).
Proof.
  intros Hfit Hnull. unfold PGSharedMemoryDetach.
  rewrite char_array_fits, Hnull by assumption. reflexivity.
Qed.

(** With a mapping recorded it unmaps it, and reports a failure. *)
Lemma PGSharedMemoryDetach_mapped {S : Type} (h : handler S) (s : S)
    (p : Proc) :
  name_fits p -> UsedShmemSegAddr p <> NULL ->
  let unmap := munmap (UsedShmemSegAddr p)
                 (Size_of_int cfg (UsedShmemSegSize p)) in
  exec h (PGSharedMemoryDetach cfg p) s =
  let '(r, s1) := h _ unmap s in
  if r =? -1
  then let '(e, s2) := h _ errno s1 in
       Run (Aborted (Ereport (segment_report "unmap"
                                (GenerateSHMName (DataDir p)) e)))
           s2 [Event unmap r; Event errno e]
  else Run (Done (tt, detached p)) s1 [Event unmap r].
Proof.
  intros Hfit Hmapped unmap. unfold PGSharedMemoryDetach.
  rewrite char_array_fits by assumption.
  apply Z.eqb_neq in Hmapped. rewrite Hmapped.
  run_body. fold unmap.
  destruct (h Z unmap s) as [r s1].
  destruct (r =? -1); run_body.
  - destruct (h Z errno s1) as [e s2]. unfold segment_report, dsm_class.
    now destruct ((e =? EFBIG) || (e =? ENOMEM)).
  - reflexivity.
Qed.

(** C7.  [PGSharedMemoryDetach] is idempotent.  When a call returns, it
    has unmapped the recorded mapping (one successful [munmap], or no
    call at all when nothing was mapped) and left the handle empty; a
    second call right after it makes no call, changes nothing and
    returns. *)
Theorem PGSharedMemoryDetach_idempotent
    {S : Type} (h : handler S) (s : S) (p p' : Proc) :
  out (exec h (PGSharedMemoryDetach cfg p) s) = Done (tt, p') ->
  (UsedShmemSegAddr p <> NULL ->
     exists r, r <> -1 /\
       trace (exec h (PGSharedMemoryDetach cfg p) s)
         = [Event (munmap (UsedShmemSegAddr p)
                     (Size_of_int cfg (UsedShmemSegSize p))) r]) /\
  (UsedShmemSegAddr p = NULL ->
     trace (exec h (PGSharedMemoryDetach cfg p) s) = []) /\
  UsedShmemSegAddr p' = NULL /\
  UsedShmemSegSize p' = 0 /\
  PGSharedMemoryDetach cfg p' = Ret (tt, p') /\
  forall (S' : Type) (h' : handler S') (s' : S'),
    exec h' (PGSharedMemoryDetach cfg p') s' = Run (Done (tt, p')) s' [].
Proof.
  intros Hdone.
  assert (name_fits p) as Hfit.
  { destruct (Nat.lt_ge_cases (String.length (GenerateSHMName (DataDir p))) 64)
      as [Hlt|Hge]; [exact Hlt|].
    rewrite PGSharedMemoryDetach_overrun in Hdone
      by (unfold name_fits; lia).
    discriminate. }
  assert (p' = detached p /\
          (UsedShmemSegAddr p <> NULL ->
           exists r, r <> -1 /\
             trace (exec h (PGSharedMemoryDetach cfg p) s)
               = [Event (munmap (UsedShmemSegAddr p)
                           (Size_of_int cfg (UsedShmemSegSize p))) r]) /\
          (UsedShmemSegAddr p = NULL ->
           trace (exec h (PGSharedMemoryDetach cfg p) s) = []))
    as (-> & Hfirst & Hnone).
  { destruct (Z.eq_dec (UsedShmemSegAddr p) NULL) as [Hnull|Hmapped].
    - rewrite PGSharedMemoryDetach_unmapped in * by assumption.
      cbn in Hdone. split; [congruence|]. split; [contradiction|].
      reflexivity.
    - rewrite (PGSharedMemoryDetach_mapped h s p Hfit Hmapped) in *.
      destruct (h Z _ s) as [r s1]. destruct (r =? -1) eqn:Hr.
      + destruct (h Z errno s1). discriminate.
      + cbn in Hdone. split; [congruence|]. split; [|contradiction].
        intros _. exists r. split; [now apply Z.eqb_neq | reflexivity]. }
  assert (PGSharedMemoryDetach cfg (detached p) = Ret (tt, detached p))
    as Hsecond by (now rewrite PGSharedMemoryDetach_unmapped).
  repeat split; try assumption; try reflexivity.
  intros S' h' s'. now rewrite Hsecond.
Qed.

End Detach.

Section DetachWitness.
Import Sample Posix.

Lemma PGSharedMemoryDetach_idempotent_witness :
  out (exec posix (PGSharedMemoryDetach production attached) (boot []))
    = Done (tt, detached attached) /\
  PGSharedMemoryDetach production (detached attached)
    = Ret (tt, detached attached).
Proof.
  split; [vm_compute; reflexivity|].
  apply (PGSharedMemoryDetach_idempotent production posix (boot [])
           attached (detached attached)).
  vm_compute; reflexivity.
Defined.

End DetachWitness.

(** ** Removing the segment at exit *)

Section Delete.
Import CString Name Report.

Variable cfg : Config.

(** C8.  [PGSharedMemoryDelete] runs [PGSharedMemoryDetach] first.  When
    that stops, nothing else happens.  When it returns, the function
    calls [shm_unlink] on the name; if that returns -1 it stops with a
    [FATAL] report classified by [errcode_for_dynamic_shared_memory] and
    never frees the name; otherwise it frees the name and returns. *)
Theorem PGSharedMemoryDelete_detach_unlink_free
    {S : Type} (h : handler S) (s : S) (status : Z) (name : string)
    (p : Proc) :
  let detach := exec h (PGSharedMemoryDetach cfg p) s in
  exec h (PGSharedMemoryDelete cfg status name p) s =
  match out detach with
  | Aborted w => Run (Aborted w) (final detach) (trace detach)
  | Done (_, p') =>
      let '(rc, s1) := h _ (shm_unlink name) (final detach) in
      if rc =? -1
      then let '(e, s2) := h _ errno s1 in
           Run (Aborted (Ereport (segment_report "remove" name e))) s2
               (trace detach
                  ++ [Event (shm_unlink name) rc; Event errno e])
      else let '(u, s2) := h _ (free name) s1 in
           Run (Done (tt, p')) s2
               (trace detach
                  ++ [Event (shm_unlink name) rc; Event (free name) u])
  end /\
  forall e : Z,
    elevel (segment_report "remove" name e) = FATAL /\
    sqlerrcode (segment_report "remove" name e)
      = Some (if (e =? EFBIG) || (e =? ENOMEM)
              then ERRCODE_OUT_OF_MEMORY else ERRCODE_FILE_ACCESS).
Proof.
  intros detach. split; [|now intros e].
  unfold PGSharedMemoryDelete.
  rewrite exec_bind. fold detach.
  destruct (out detach) as [[[] p']|w]; [|reflexivity].
  run_body.
  destruct (h Z (shm_unlink name) (final detach)) as [rc s1].
  destruct (rc =? -1); run_body.
  - destruct (h Z errno s1) as [e s2]. unfold segment_report, dsm_class.
    now destruct ((e =? EFBIG) || (e =? ENOMEM)).
  - now destruct (h unit (free name) s1) as [u s2].
Qed.

End Delete.

(** ** The liveness probe *)

Section Probe.
Import CString Name Sample Posix.

(** C10.  [PGSharedMemoryIsInUse] ignores its two arguments: for
    processes with the same [DataDir] the body is the same whatever the
    arguments are, so in every environment and state it makes the same
    calls and returns the same boolean. *)
Theorem PGSharedMemoryIsInUse_ignores_arguments
    (id1 id2 id1' id2' : Z) (p p' : Proc) :
  DataDir p = DataDir p' ->
  PGSharedMemoryIsInUse id1 id2 p = PGSharedMemoryIsInUse id1' id2' p' /\
  forall (S : Type) (h : handler S) (s : S),
    exec h (PGSharedMemoryIsInUse id1 id2 p) s
      = exec h (PGSharedMemoryIsInUse id1' id2' p') s.
Proof.
  intros Hdir.
  assert (PGSharedMemoryIsInUse id1 id2 p
          = PGSharedMemoryIsInUse id1' id2' p') as Heq
    by (unfold PGSharedMemoryIsInUse; now rewrite Hdir).
  split; [exact Heq|]. intros S h s. now rewrite Heq.
Qed.

Lemma PGSharedMemoryIsInUse_ignores_arguments_witness :
  DataDir (postmaster data_directory HUGE_PAGES_OFF) = DataDir attached /\
  out (exec posix (PGSharedMemoryIsInUse 1 2
                     (postmaster data_directory HUGE_PAGES_OFF)) (boot []))
    = out (exec posix (PGSharedMemoryIsInUse 5432001 77 attached) (boot [])).
Proof.
  split; [reflexivity|].
  destruct (PGSharedMemoryIsInUse_ignores_arguments 1 2 5432001 77
              (postmaster data_directory HUGE_PAGES_OFF) attached
              eq_refl) as [_ Hsame].
  now rewrite Hsame.
Defined.

End Probe.

(** ** Creating the segment: the header *)

(** ** Stores to the header *)

Section StoreFacts.

(** Reading the struct at [hdr] after a store to it. *)
Lemma load_store (hdr : Z) (f : PGShmemHeader -> PGShmemHeader) (p : Proc) :
  load hdr (store hdr f p) = f (load hdr p).
Proof. unfold load, store. cbn [memory]. now rewrite lookup_insert_eq. Qed.

Lemma load_set_UsedShmemSegAddr (hdr a : Z) (p : Proc) :
  load hdr (set_UsedShmemSegAddr a p) = load hdr p.
Proof. reflexivity. Qed.

Lemma load_set_UsedShmemSegSize (hdr n : Z) (p : Proc) :
  load hdr (set_UsedShmemSegSize n p) = load hdr p.
Proof. reflexivity. Qed.

Lemma load_store_pointer (hdr shim a : Z) (p : Proc) :
  load hdr (store_pointer shim a p) = load hdr p.
Proof. reflexivity. Qed.

End StoreFacts.

Section CreateHeader.
Import CString Name Sample Report.

Variable cfg : Config.

(** The process state after the header is written at [hdr] by process
    [pid] and the mapping is recorded. *)
Lemma PGSharedMemoryCreate_done {S : Type} (h : handler S) (s : S)
    (size : Z) (makePrivate : bool) (port shim : Z) (p : Proc)
    (hdr : Z) (p' : Proc) :
  out (exec h (PGSharedMemoryCreate cfg size makePrivate port shim p) s)
    = Done (hdr, p') ->
  exists pid,
    p' = store_pointer shim hdr
           (set_UsedShmemSegSize (int_of_Size size)
              (set_UsedShmemSegAddr hdr
                 (store hdr (set_dsm_control 0)
                    (store hdr (set_freeoffset
                                  (MAXALIGN cfg (sizeof_PGShmemHeader cfg)))
                       (store hdr (set_totalsize size)
                          (store hdr (set_creatorPID pid)
                             (store hdr (set_magic (PGShmemMagic cfg))
                                (set_UsedShmemSegAddr NULL p)))))))).
Proof.
  intros Hdone. unfold PGSharedMemoryCreate, Assert, char_array in Hdone.
  repeat step_in Hdone.
  all: injection Hdone as <- <-; eexists; reflexivity.
Qed.

(** C5.  For every size greater than the aligned header size, when
    [PGSharedMemoryCreate] returns, the header it returns has the magic
    number, the requested size as [totalsize], the aligned header size
    as [freeoffset] (a multiple of the alignment, greater than zero and
    less than the size) and zero in [dsm_control]. *)
Theorem PGSharedMemoryCreate_initializes_header
    {S : Type} (h : handler S) (s : S)
    (size : Z) (makePrivate : bool) (port shim : Z) (p : Proc)
    (hdr : Z) (p' : Proc) :
  Config_ok cfg ->
  MAXALIGN cfg (sizeof_PGShmemHeader cfg) < size ->
  out (exec h (PGSharedMemoryCreate cfg size makePrivate port shim p) s)
    = Done (hdr, p') ->
  magic (load hdr p') = PGShmemMagic cfg /\
  totalsize (load hdr p') = size /\
  freeoffset (load hdr p') = MAXALIGN cfg (sizeof_PGShmemHeader cfg) /\
  freeoffset (load hdr p') mod MAXIMUM_ALIGNOF cfg = 0 /\
  0 < freeoffset (load hdr p') < size /\
  dsm_control (load hdr p') = 0.
Proof.
  intros Hcfg Hroom Hdone.
  apply PGSharedMemoryCreate_done in Hdone as [pid ->].
  rewrite load_store_pointer, load_set_UsedShmemSegSize,
    load_set_UsedShmemSegAddr, !load_store.
  cbn [set_magic set_creatorPID set_totalsize set_freeoffset
         set_dsm_control magic creatorPID totalsize freeoffset dsm_control].
  pose proof (MAXALIGN_header_aligned cfg Hcfg).
  pose proof (MAXALIGN_header_pos cfg Hcfg).
  repeat split; try reflexivity; assumption.
Qed.

End CreateHeader.

Section CreateHeaderWitness.
Import Sample Posix.

Lemma PGSharedMemoryCreate_initializes_header_witness :
  Config_ok production /\
  MAXALIGN production (sizeof_PGShmemHeader production) < 1048576 /\
  out created
    = Done (fst (returned (0, attached) created),
            snd (returned (0, attached) created)) /\
  magic (load (fst (returned (0, attached) created))
           (snd (returned (0, attached) created)))
    = PGShmemMagic production.
Proof.
  assert (Config_ok production) as Hcfg.
  { unfold Config_ok. cbn [MAXIMUM_ALIGNOF sizeof_PGShmemHeader SIZE_BITS
                             production].
    repeat split; first [reflexivity | vm_compute; discriminate]. }
  assert (MAXALIGN production (sizeof_PGShmemHeader production) < 1048576)
    as Hroom by (vm_compute; reflexivity).
  assert (out created
          = Done (fst (returned (0, attached) created),
                  snd (returned (0, attached) created))) as Hdone
    by (vm_compute; reflexivity).
  split; [exact Hcfg|]. split; [exact Hroom|]. split; [exact Hdone|].
  apply (PGSharedMemoryCreate_initializes_header production posix (boot [])
           1048576 false 5432 shim_variable
           (postmaster data_directory HUGE_PAGES_OFF)
           (fst (returned (0, attached) created))
           (snd (returned (0, attached) created)) Hcfg Hroom Hdone).
Defined.

End CreateHeaderWitness.

(** ** The name space *)

Section PosixFacts.
Import Posix.

Lemma next_fault_objects (s : OS) :
  objects (snd (next_fault s)) = objects s.
Proof. unfold next_fault. now destruct (faults s). Qed.

Lemma next_fault_unscheduled (s : OS) :
  next_call_fails s = false -> fst (next_fault s) = None.
Proof.
  unfold next_call_fails, next_fault.
  now destruct (faults s) as [|[e|] rest].
Qed.

(** An exclusive create of a name that exists fails and leaves the name
    space as it is, whatever the fault schedule. *)
Lemma posix_exclusive_create_exists (s : OS) (name : string) (mode : Z) :
  is_Some (objects s !! name) ->
  fst (posix Z (shm_open name [O_RDWR; O_CREAT; O_EXCL] mode) s) = -1 /\
  objects (snd (posix Z (shm_open name [O_RDWR; O_CREAT; O_EXCL] mode) s))
    = objects s.
Proof.
  intros [size Hsize]. cbn [posix]. unfold fallible.
  pose proof (next_fault_objects s) as Hobj.
  destruct (next_fault s) as [[e|] s0]; cbn [snd] in Hobj.
  - split; [reflexivity | exact Hobj].
  - unfold do_shm_open. rewrite Hobj, Hsize. split; [reflexivity | exact Hobj].
Qed.

(** An exclusive create of a free name that is not made to fail creates
    the object and gives a descriptor. *)
Lemma posix_exclusive_create_free (s : OS) (name : string) (mode : Z) :
  objects s !! name = None ->
  next_call_fails s = false ->
  fst (posix Z (shm_open name [O_RDWR; O_CREAT; O_EXCL] mode) s) <> -1.
Proof.
  intros Hfree Hok. cbn [posix]. unfold fallible.
  pose proof (next_fault_objects s) as Hobj.
  pose proof (next_fault_unscheduled s Hok) as Hnone.
  destruct (next_fault s) as [f s0]; cbn [fst snd] in Hobj, Hnone. subst f.
  unfold do_shm_open. rewrite Hobj, Hfree.
  rewrite bool_decide_eq_true_2 by set_solver.
  unfold open_descriptor. cbn [fst]. lia.
Qed.

(** A call that is not [shm_unlink] removes no object. *)
Lemma posix_keeps_object {R : Type} (c : call R) (s : OS) (name : string) :
  match c with shm_unlink _ => False | _ => True end ->
  is_Some (objects s !! name) ->
  is_Some (objects (snd (posix R c s)) !! name).
Proof.
  intros Hc Hin.
  assert (forall s0, objects s0 = objects s ->
                     is_Some (objects s0 !! name)) as Hsame
    by (intros s0 ->; exact Hin).
  pose proof (next_fault_objects s) as Hobj.
  destruct c; try contradiction; cbn [posix]; unfold fallible;
    try (destruct (next_fault s) as [[e|] s0]; cbn [snd] in Hobj);
    cbn [snd]; try (apply Hsame; assumption || reflexivity).
  - (* shm_open *)
    unfold do_shm_open, open_descriptor.
    destruct (objects s0 !! name0) eqn:Hl;
      repeat case_match; cbn [snd objects with_errno with_descriptors with_objects];
      try (apply Hsame; assumption).
    rewrite Hobj. destruct (decide (name0 = name)) as [->|Hne].
    + rewrite lookup_insert_eq. eauto.
    + now rewrite lookup_insert_ne.
  - (* close *)
    unfold do_close. repeat case_match; cbn; now apply Hsame.
  - (* fstat *)
    unfold do_fstat. repeat case_match; cbn; now apply Hsame.
  - (* ftruncate *)
    unfold do_ftruncate. repeat case_match; cbn [snd objects with_errno with_objects];
      try (now apply Hsame).
    rewrite Hobj. destruct (decide (s1 = name)) as [->|Hne].
    + rewrite lookup_insert_eq. eauto.
    + now rewrite lookup_insert_ne.
  - (* mmap *)
    unfold do_mmap. repeat case_match; cbn; now apply Hsame.
  - (* strdup *)
    destruct (next_fault s) as [[e|] s']; cbn [snd] in *; now apply Hsame.
Qed.

(** A successful [shm_open] with [O_CREAT] leaves the name in the name
    space. *)
Lemma posix_create_leaves_object (s : OS) (name : string) (mode : Z) :
  fst (posix Z (shm_open name [O_RDWR; O_CREAT] mode) s) <> -1 ->
  is_Some (objects (snd (posix Z (shm_open name [O_RDWR; O_CREAT] mode) s))
             !! name).
Proof.
  cbn [posix]. unfold fallible.
  destruct (next_fault s) as [[e|] s0]; cbn [fst snd]; [congruence|].
  unfold do_shm_open, open_descriptor. intros _.
  rewrite (bool_decide_eq_true_2 (O_CREAT ∈ [O_RDWR; O_CREAT]))
    by set_solver.
  rewrite (bool_decide_eq_false_2 (O_EXCL ∈ [O_RDWR; O_CREAT]))
    by (rewrite !elem_of_cons, elem_of_nil; intuition discriminate).
  destruct (objects s0 !! name) eqn:Hl;
    cbn [andb snd objects with_descriptors with_objects].
  - rewrite Hl. eauto.
  - rewrite lookup_insert_eq. eauto.
Qed.

(** A successful [shm_unlink] leaves the name free. *)
Lemma posix_unlink_frees_name (s : OS) (name : string) :
  fst (posix Z (shm_unlink name) s) <> -1 ->
  objects (snd (posix Z (shm_unlink name) s)) !! name = None.
Proof.
  cbn [posix]. unfold fallible.
  destruct (next_fault s) as [[e|] s0]; cbn [fst snd]; [congruence|].
  unfold do_shm_unlink.
  destruct (objects s0 !! name) eqn:Hl; cbn; [intros _|congruence].
  apply lookup_delete_eq.
Qed.

End PosixFacts.

(** ** The liveness probe in the name space *)

(** Carries the presence of an object across the calls recorded in the
    context. *)
Ltac carry_object :=
  repeat match goal with
    | Hc : Posix.posix ?R ?c ?s = (_, ?s'),
      Hin : is_Some (Posix.objects ?s !! ?n) |- _ =>
        lazymatch goal with
        | _ : is_Some (Posix.objects s' !! n) |- _ => fail
        | _ => idtac
        end;
        let Hk := fresh "Hkept" in
        pose proof (posix_keeps_object c s n I Hin) as Hk;
        rewrite Hc in Hk; cbn [snd] in Hk
    end.

Section ProbeInNameSpace.
Import CString Name Posix.

Lemma PGSharedMemoryIsInUse_exec {S : Type} (h : handler S) (s : S)
    (id1 id2 : Z) (p : Proc) :
  name_fits p ->
  let name := GenerateSHMName (DataDir p) in
  let probe := shm_open name [O_RDWR; O_CREAT; O_EXCL] mode_0600 in
  exec h (PGSharedMemoryIsInUse id1 id2 p) s =
  let '(fd, s1) := h _ probe s in
  if fd =? -1
  then Run (Done true) s1 [Event probe fd]
  else let '(rc, s2) := h _ (close fd) s1 in
       let '(ru, s3) := h _ (shm_unlink name) s2 in
       Run (Done false) s3
           [Event probe fd; Event (close fd) rc;
            Event (shm_unlink name) ru].
Proof.
  intros Hfit name probe. unfold PGSharedMemoryIsInUse.
  rewrite char_array_fits by assumption. run_body.
  fold name. fold probe. destruct (h Z probe s) as [fd s1].
  destruct (fd =? -1); run_body; [reflexivity|].
  destruct (h Z (close fd) s1) as [rc s2].
  now destruct (h Z (shm_unlink name) s2) as [ru s3].
Qed.

(** While the object exists the probe answers true and changes nothing
    in the name space. *)
Lemma PGSharedMemoryIsInUse_existing (s : OS) (id1 id2 : Z) (p : Proc) :
  name_fits p ->
  is_Some (objects s !! GenerateSHMName (DataDir p)) ->
  out (exec posix (PGSharedMemoryIsInUse id1 id2 p) s) = Done true /\
  objects (final (exec posix (PGSharedMemoryIsInUse id1 id2 p) s))
    = objects s.
Proof.
  intros Hfit Hin. rewrite PGSharedMemoryIsInUse_exec by assumption.
  destruct (posix_exclusive_create_exists s _ mode_0600 Hin) as [Hfd Hobj].
  cbv zeta. destruct (posix Z _ s) as [fd s1]. cbn [fst snd] in Hfd, Hobj.
  subst fd. now cbn.
Qed.

(** When the name is free and the create is not made to fail the probe
    answers false. *)
Lemma PGSharedMemoryIsInUse_free (s : OS) (id1 id2 : Z) (p : Proc) :
  name_fits p ->
  objects s !! GenerateSHMName (DataDir p) = None ->
  next_call_fails s = false ->
  out (exec posix (PGSharedMemoryIsInUse id1 id2 p) s) = Done false.
Proof.
  intros Hfit Hfree Hok. rewrite PGSharedMemoryIsInUse_exec by assumption.
  pose proof (posix_exclusive_create_free s _ mode_0600 Hfree Hok) as Hfd.
  cbv zeta. destruct (posix Z _ s) as [fd s1]. cbn [fst] in Hfd.
  apply Z.eqb_neq in Hfd. rewrite Hfd.
  destruct (posix Z (close fd) s1) as [rc s2].
  now destruct (posix Z (shm_unlink _) s2) as [ru s3].
Qed.

(** With no call made to fail, the object the probe created is gone
    again when it returns. *)
Lemma PGSharedMemoryIsInUse_cleans_up (s : OS) (id1 id2 : Z) (p : Proc) :
  name_fits p ->
  objects s !! GenerateSHMName (DataDir p) = None ->
  faults s = [] ->
  objects (final (exec posix (PGSharedMemoryIsInUse id1 id2 p) s))
    = objects s.
Proof.
  intros Hfit Hfree Hnone. rewrite PGSharedMemoryIsInUse_exec by assumption.
  cbv zeta. cbn [posix]. unfold fallible, next_fault. rewrite Hnone.
  unfold do_shm_open. rewrite Hfree.
  rewrite bool_decide_eq_true_2 by set_solver.
  unfold open_descriptor, do_close, do_shm_unlink.
  cbn [next_fd descriptors objects faults with_objects with_descriptors].
  assert ((Z.of_N (next_fd s) =? -1) = false) as ->
    by (apply Z.eqb_neq; lia).
  rewrite Hnone.
  cbn [next_fd descriptors objects faults with_objects with_descriptors].
  rewrite lookup_insert_eq.
  cbn [next_fd descriptors objects faults with_objects with_descriptors].
  rewrite Hnone.
  cbn [next_fd descriptors objects faults with_objects with_descriptors].
  rewrite lookup_insert_eq.
  cbn [final objects with_objects]. now apply delete_insert_id.
Qed.

Variable cfg : Config.

(** When [PGSharedMemoryCreate] returns, the object exists. *)
Lemma PGSharedMemoryCreate_leaves_object (s : OS)
    (size : Z) (makePrivate : bool) (port shim : Z) (p : Proc)
    (x : Z * Proc) :
  out (exec posix (PGSharedMemoryCreate cfg size makePrivate port shim p) s)
    = Done x ->
  name_fits p /\
  is_Some (objects (final (exec posix (PGSharedMemoryCreate cfg size
                                         makePrivate port shim p) s))
             !! GenerateSHMName (DataDir p)).
Proof.
  remember (exec posix (PGSharedMemoryCreate cfg size makePrivate port shim p) s)
    as r eqn:Hr.
  intros Hdone. unfold PGSharedMemoryCreate, Assert, char_array in Hr.
  repeat step_in Hr.
  all: subst r; cbn [out final] in *; try discriminate Hdone.
  all: match goal with
       | H : (_ <? _)%nat = true |- _ => apply Nat.ltb_lt in H
       end.
  all: split; [assumption|].
  all: match goal with
       | Hc : posix Z (shm_open ?n ?fl ?m) ?s0 = (?fd, ?s1),
         Ht : (?fd =? -1) = false |- _ =>
           let Hk := fresh "Hkept" in
           apply Z.eqb_neq in Ht;
           pose proof (posix_create_leaves_object s0 n m) as Hk;
           rewrite Hc in Hk; cbn [fst snd] in Hk; specialize (Hk Ht)
       end.
  all: carry_object; assumption.
Qed.

(** When [PGSharedMemoryDelete] returns, the name is free. *)
Lemma PGSharedMemoryDelete_frees_name (s : OS) (status : Z)
    (name : string) (p : Proc) (x : unit * Proc) :
  out (exec posix (PGSharedMemoryDelete cfg status name p) s) = Done x ->
  objects (final (exec posix (PGSharedMemoryDelete cfg status name p) s))
    !! name = None.
Proof.
  remember (exec posix (PGSharedMemoryDelete cfg status name p) s)
    as r eqn:Hr.
  intros Hdone. unfold PGSharedMemoryDelete in Hr.
  rewrite exec_bind in Hr.
  destruct (exec posix (PGSharedMemoryDetach cfg p) s)
    as [[[[] p']|w] s1 t1]; cbn [out final trace] in Hr.
  - repeat step_in Hr.
    all: subst r; cbn [out final] in *; try discriminate Hdone.
    match goal with
    | Hc : posix Z (shm_unlink name) s1 = (?rc, ?s2),
      Ht : (?rc =? -1) = false,
      Hf : posix unit (free name) ?s2 = (_, ?s3) |- _ =>
        apply Z.eqb_neq in Ht;
        pose proof (posix_unlink_frees_name s1 name) as Hk;
        rewrite Hc in Hk; cbn [fst snd] in Hk; specialize (Hk Ht);
        cbn [posix] in Hf; injection Hf as _ <-
    end.
    assumption.
  - subst r. discriminate Hdone.
Qed.

End ProbeInNameSpace.

Section ProbeTheorem.
Import CString Name Posix Sample Report.

(** C1.  With a name that fits its buffer, [PGSharedMemoryIsInUse]
    makes an exclusive create of the named object.  In every
    environment: if the create returns -1 it returns true after that
    one call; if not, it closes the descriptor, unlinks the name and
    returns false.  In the name space: it returns true while an object
    of that name exists (so after [PGSharedMemoryCreate] returned), and
    false when the name is free (so after [PGSharedMemoryDelete]
    returned) and the create is not made to fail; the name space is the
    same before and after. *)
Theorem PGSharedMemoryIsInUse_exclusive_create
    (id1 id2 : Z) (p : Proc) :
  name_fits p ->
  (forall (S : Type) (h : handler S) (s : S),
      exec h (PGSharedMemoryIsInUse id1 id2 p) s =
      let name := GenerateSHMName (DataDir p) in
      let probe := shm_open name [O_RDWR; O_CREAT; O_EXCL] mode_0600 in
      let '(fd, s1) := h _ probe s in
      if fd =? -1
      then Run (Done true) s1 [Event probe fd]
      else let '(rc, s2) := h _ (close fd) s1 in
           let '(ru, s3) := h _ (shm_unlink name) s2 in
           Run (Done false) s3
               [Event probe fd; Event (close fd) rc;
                Event (shm_unlink name) ru]) /\
  (forall s : OS,
      is_Some (objects s !! GenerateSHMName (DataDir p)) ->
      out (exec posix (PGSharedMemoryIsInUse id1 id2 p) s) = Done true /\
      objects (final (exec posix (PGSharedMemoryIsInUse id1 id2 p) s))
        = objects s) /\
  (forall s : OS,
      objects s !! GenerateSHMName (DataDir p) = None ->
      next_call_fails s = false ->
      out (exec posix (PGSharedMemoryIsInUse id1 id2 p) s) = Done false) /\
  (forall s : OS,
      objects s !! GenerateSHMName (DataDir p) = None ->
      faults s = [] ->
      objects (final (exec posix (PGSharedMemoryIsInUse id1 id2 p) s))
        = objects s) /\
  (forall (cfg : Config) (size : Z) (makePrivate : bool) (port shim : Z)
          (s : OS) (x : Z * Proc),
      let create :=
        exec posix (PGSharedMemoryCreate cfg size makePrivate port shim p) s in
      out create = Done x ->
      out (exec posix (PGSharedMemoryIsInUse id1 id2 p) (final create))
        = Done true) /\
  (forall (cfg : Config) (status : Z) (s : OS) (x : unit * Proc),
      let delete :=
        exec posix (PGSharedMemoryDelete cfg status
                      (GenerateSHMName (DataDir p)) p) s in
      out delete = Done x ->
      next_call_fails (final delete) = false ->
      out (exec posix (PGSharedMemoryIsInUse id1 id2 p) (final delete))
        = Done false).
Proof.
  intros Hfit. split; [|split; [|split; [|split; [|split]]]].
  - intros S h s. now apply PGSharedMemoryIsInUse_exec.
  - intros s. now apply PGSharedMemoryIsInUse_existing.
  - intros s. now apply PGSharedMemoryIsInUse_free.
  - intros s. now apply PGSharedMemoryIsInUse_cleans_up.
  - intros cfg size makePrivate port shim s x create Hdone.
    apply PGSharedMemoryCreate_leaves_object in Hdone as [_ Hin].
    now apply PGSharedMemoryIsInUse_existing.
  - intros cfg status s x delete Hdone Hok.
    apply PGSharedMemoryDelete_frees_name in Hdone.
    now apply PGSharedMemoryIsInUse_free.
Qed.

Lemma PGSharedMemoryIsInUse_exclusive_create_witness :
  name_fits (postmaster data_directory HUGE_PAGES_OFF) /\
  out (exec posix
         (PGSharedMemoryIsInUse 0 0 (postmaster data_directory HUGE_PAGES_OFF))
         (final created)) = Done true.
Proof.
  assert (name_fits (postmaster data_directory HUGE_PAGES_OFF)) as Hfit
    by (vm_compute; lia).
  split; [exact Hfit|].
  destruct (PGSharedMemoryIsInUse_exclusive_create 0 0
              (postmaster data_directory HUGE_PAGES_OFF) Hfit)
    as (_ & _ & _ & _ & Hcreated & _).
  apply (Hcreated production 1048576 false 5432 shim_variable (boot [])
           (returned (0, attached) created)).
  vm_compute; reflexivity.
Defined.

(** C3: what the code does when [shm_open] fails for lack of memory.
    The report is [FATAL] but carries no error class, where the claim
    wants out-of-memory; the failure of [fstat] right after it, for the
    same error number, is classified. *)
Theorem PGSharedMemoryCreate_open_failure_unclassified :
  let create := PGSharedMemoryCreate production 1048576 false 5432 shim_variable
                  (postmaster data_directory HUGE_PAGES_OFF) in
  out (exec posix create (boot [Some ENOMEM]))
    = Aborted (Ereport (create_report ENOMEM)) /\
  sqlerrcode (create_report ENOMEM) = None /\
  out (exec posix create (boot [None; Some ENOMEM]))
    = Aborted (Ereport (segment_report "stat" "/PostgreSQL.valipoda"
                          ENOMEM)) /\
  sqlerrcode (segment_report "stat" "/PostgreSQL.valipoda" ENOMEM)
    = Some ERRCODE_OUT_OF_MEMORY.
Proof. cbv zeta. repeat split; vm_compute; reflexivity. Qed.

(** Every directory level adds two characters to the name. *)
Lemma GenerateSHMName_loop_nested (n : nat) :
  forall (chars : Z) (name : string),
    String.length (GenerateSHMName_loop (nested n) chars name)
    = (String.length name + 2 * n)%nat.
Proof.
  induction n as [|n IH]; intros chars name.
  - simpl. lia.
  - change (nested (S n))
      with (String "/" (String "a" (String "b" (nested n)))).
    cbn [GenerateSHMName_loop].
    change (Ascii.eqb "/" "/") with true.
    change (Ascii.eqb "a" "/") with false.
    change (Ascii.eqb "b" "/") with false.
    change (0 <? 2) with true. change (0 + 1 <? 2) with true.
    cbv iota. rewrite IH. unfold strncat. cbn [String.substring].
    rewrite !substring_0_0, !length_append. simpl. lia.
Qed.

(** C2: what the code does for a data directory thirty-two levels deep.
    The derived name has 76 characters, more than both the prefix with
    63 characters (75) and the callers' [char name[64]]: every caller
    writes past the end of its array.  Nothing truncates the name: it
    grows with the depth of the directory without bound. *)
Theorem GenerateSHMName_overruns_name_array :
  (forall n : nat,
      String.length (GenerateSHMName (nested n)) = (12 + 2 * n)%nat) /\
  String.length deep_directory = 96%nat /\
  String.length (GenerateSHMName deep_directory) = 76%nat /\
  (String.length prefix + 63
   < String.length (GenerateSHMName deep_directory))%nat /\
  PGSharedMemoryIsInUse 0 0 (postmaster deep_directory HUGE_PAGES_OFF)
    = Stop BufferOverrun /\
  PGSharedMemoryCreate production 1048576 false 5432 shim_variable
      (postmaster deep_directory HUGE_PAGES_OFF)
    = Stop BufferOverrun /\
  PGSharedMemoryDetach production (postmaster deep_directory HUGE_PAGES_OFF)
    = Stop BufferOverrun.
Proof.
  split.
  { intros n. unfold GenerateSHMName, strcpy.
    now rewrite GenerateSHMName_loop_nested. }
  split; [vm_compute; reflexivity|].
  split; [vm_compute; reflexivity|].
  split; [vm_compute; lia|].
  split; [vm_compute; reflexivity|].
  split; vm_compute; reflexivity.
Qed.

End ProbeTheorem.

(** * Further properties of the code *)

(** ** The derived name: composition, length, collisions *)

Section NameComposition.
Import CString Name Posix Sample Scenario.

Lemma segments_subdirectory (d e : string) :
  segments (d +:+ "/" +:+ e) = (segments d ++ segments e)%list.
Proof.
  induction d as [|c d IH].
  - reflexivity.
  - rewrite append_cons. cbn [segments].
    pose proof (segments_not_nil d) as Hne.
    destruct (Ascii.eqb c "/").
    + now rewrite IH.
    + rewrite IH. now destruct (segments d) as [|seg rest]; [congruence|].
Qed.

Lemma concat_empty_app (l1 l2 : list string) :
  String.concat "" (l1 ++ l2)%list
  = String.concat "" l1 +:+ String.concat "" l2.
Proof.
  induction l1 as [|x l1 IH]; [reflexivity|].
  change ((x :: l1) ++ l2)%list with (x :: (l1 ++ l2))%list.
  now rewrite !concat_empty_cons, IH, append_assoc.
Qed.

Lemma derived_suffix_subdirectory (d e : string) :
  derived_suffix (d +:+ "/" +:+ e) = derived_suffix d +:+ derived_suffix e.
Proof.
  unfold derived_suffix.
  now rewrite segments_subdirectory, map_app, concat_empty_app.
Qed.

(** X1.  The name of a subdirectory extends the name of its parent by
    the first two characters of each further segment, and a separator
    at the end of the path changes nothing. *)
Theorem GenerateSHMName_subdirectory :
  (forall d e : string,
      GenerateSHMName (d +:+ "/" +:+ e)
      = GenerateSHMName d +:+ derived_suffix e) /\
  (forall d : string, GenerateSHMName (d +:+ "/") = GenerateSHMName d).
Proof.
  assert (forall d e : string,
             GenerateSHMName (d +:+ "/" +:+ e)
             = GenerateSHMName d +:+ derived_suffix e) as Hsub.
  { intros d e.
    now rewrite !GenerateSHMName_derived, derived_suffix_subdirectory,
      append_assoc. }
  split; [exact Hsub|].
  intros d. specialize (Hsub d "").
  change (derived_suffix "") with "" in Hsub.
  now rewrite !append_empty_r in Hsub.
Qed.




(** X3.  Data directories whose segments agree on their first two
    characters derive the same name, so the probe cannot tell them
    apart: it is the same body for both, and once a segment was created
    for one of them the probe of the other answers true. *)
Theorem GenerateSHMName_collision
    (id1 id2 id1' id2' : Z) (p q : Proc) :
  map first_two (segments (DataDir p)) = map first_two (segments (DataDir q)) ->
  GenerateSHMName (DataDir p) = GenerateSHMName (DataDir q) /\
  PGSharedMemoryIsInUse id1 id2 p = PGSharedMemoryIsInUse id1' id2' q /\
  forall (cfg : Config) (size : Z) (makePrivate : bool) (port shim : Z)
         (s : OS) (x : Z * Proc),
    out (exec posix (PGSharedMemoryCreate cfg size makePrivate port shim p) s)
      = Done x ->
    out (exec posix (PGSharedMemoryIsInUse id1' id2' q)
           (final (exec posix
                     (PGSharedMemoryCreate cfg size makePrivate port shim p) s)))
      = Done true.
Proof.
  intros Hsegs.
  assert (GenerateSHMName (DataDir p) = GenerateSHMName (DataDir q)) as Hname.
  { rewrite !GenerateSHMName_derived. unfold derived_suffix.
    now rewrite Hsegs. }
  split; [exact Hname|]. split.
  - unfold PGSharedMemoryIsInUse. now rewrite Hname.
  - intros cfg size makePrivate port shim s x Hdone.
    apply PGSharedMemoryCreate_leaves_object in Hdone as [Hfit Hin].
    apply PGSharedMemoryIsInUse_existing.
    + unfold name_fits in *. now rewrite <- Hname.
    + now rewrite <- Hname.
Qed.

Lemma GenerateSHMName_collision_witness :
  map first_two (segments (DataDir (postmaster data1 HUGE_PAGES_OFF)))
    = map first_two (segments (DataDir (postmaster data2 HUGE_PAGES_OFF))) /\
  GenerateSHMName (DataDir (postmaster data1 HUGE_PAGES_OFF))
    = GenerateSHMName (DataDir (postmaster data2 HUGE_PAGES_OFF)).
Proof.
  assert (map first_two (segments (DataDir (postmaster data1 HUGE_PAGES_OFF)))
          = map first_two
              (segments (DataDir (postmaster data2 HUGE_PAGES_OFF))))
    as Hsegs by (vm_compute; reflexivity).
  split; [exact Hsegs|].
  apply (GenerateSHMName_collision 0 0 0 0
           (postmaster data1 HUGE_PAGES_OFF)
           (postmaster data2 HUGE_PAGES_OFF) Hsegs).
Defined.

End NameComposition.

(** ** Creating the segment: every run, in every environment *)

Section CreateRuns.
Import CString Name Sample Report Trace Posix Scenario.

Variable cfg : Config.

(** X4.  [PGSharedMemoryCreate] never removes a name and never unmaps
    anything: whatever the environment answers, no run of it calls
    [shm_unlink] or [munmap] (a mapping recorded in the handle before the
    call is forgotten, not unmapped; an object it created stays when it
    fails later). *)
Theorem PGSharedMemoryCreate_never_unlinks_or_unmaps
    {S : Type} (h : handler S) (s : S)
    (size : Z) (makePrivate : bool) (port shim : Z) (p : Proc) :
  existsb is_shm_unlink
    (trace (exec h (PGSharedMemoryCreate cfg size makePrivate port shim p) s))
    = false /\
  existsb is_munmap
    (trace (exec h (PGSharedMemoryCreate cfg size makePrivate port shim p) s))
    = false.
Proof.
  remember (exec h (PGSharedMemoryCreate cfg size makePrivate port shim p) s)
    as r eqn:Hr.
  unfold PGSharedMemoryCreate, Assert, char_array in Hr.
  repeat step_all Hr.
  all: subst r; split; reflexivity.
Qed.

(** X5.  Whenever [PGSharedMemoryCreate] got a descriptor from
    [shm_open], it closes that descriptor exactly once before it returns
    or stops, on every path, and closes nothing else. *)
Theorem PGSharedMemoryCreate_closes_descriptor
    {S : Type} (h : handler S) (s : S)
    (size : Z) (makePrivate : bool) (port shim : Z) (p : Proc) (fd : Z) :
  opened (trace (exec h (PGSharedMemoryCreate cfg size makePrivate port shim p) s))
    = Some fd ->
  fd <> -1 ->
  count (is_close_of fd)
    (trace (exec h (PGSharedMemoryCreate cfg size makePrivate port shim p) s))
    = 1%nat /\
  count is_close
    (trace (exec h (PGSharedMemoryCreate cfg size makePrivate port shim p) s))
    = 1%nat.
Proof.
  remember (exec h (PGSharedMemoryCreate cfg size makePrivate port shim p) s)
    as r eqn:Hr.
  unfold PGSharedMemoryCreate, Assert, char_array in Hr.
  repeat step_all Hr.
  all: subst r; cbn [trace opened]; intros Hfd Hopen;
    try discriminate Hfd; injection Hfd as ->.
  all: try match goal with
           | H : (?z =? -1) = true, Hn : ?z <> -1 |- _ =>
               apply Z.eqb_eq in H; contradiction
           end.
  all: unfold count; cbn [List.filter is_close_of is_close];
    rewrite ?Z.eqb_refl; split; reflexivity.
Qed.

(** X6.  For a derived name that fits its array and a [shim] that is
    not null, [PGSharedMemoryCreate] registers its exit hook exactly when
    it returns.  A run that returns called [strdup] once, on the derived
    name, and then [on_shmem_exit] once, with [PGSharedMemoryDelete] and
    whatever [strdup] gave, the copy or [NULL]: the result of [strdup] is
    not checked.  A run that stops made neither call. *)
Theorem PGSharedMemoryCreate_registers_hook_on_return
    {S : Type} (h : handler S) (s : S)
    (size : Z) (makePrivate : bool) (port shim : Z) (p : Proc) :
  name_fits p ->
  shim <> NULL ->
  match out (exec h (PGSharedMemoryCreate cfg size makePrivate port shim p) s)
  with
  | Done _ =>
      exists copy : option string,
        duplicated
          (trace (exec h (PGSharedMemoryCreate cfg size makePrivate port shim p)
                    s))
        = [(GenerateSHMName (DataDir p), copy)] /\
        registered
          (trace (exec h (PGSharedMemoryCreate cfg size makePrivate port shim p)
                    s))
        = [(PGSharedMemoryDelete_callback, copy)]
  | Aborted _ =>
      duplicated
        (trace (exec h (PGSharedMemoryCreate cfg size makePrivate port shim p)
                  s))
      = [] /\
      registered
        (trace (exec h (PGSharedMemoryCreate cfg size makePrivate port shim p)
                  s))
      = []
  end.
Proof.
  intros Hfit Hshim.
  remember (exec h (PGSharedMemoryCreate cfg size makePrivate port shim p) s)
    as r eqn:Hr.
  unfold PGSharedMemoryCreate, Assert in Hr.
  rewrite (char_array_fits p Hfit) in Hr.
  repeat step_all Hr.
  all: subst r; cbn [out trace duplicated registered].
  all: first [split; reflexivity | eexists; split; reflexivity].
Qed.

(** X7.  Resize if needed: [PGSharedMemoryCreate] calls [ftruncate] at
    most once, with the descriptor it opened and the requested size, and
    only when [fstat] succeeded and stored a size different from the
    requested one. *)
Theorem PGSharedMemoryCreate_resizes_if_needed
    {S : Type} (h : handler S) (s : S)
    (size : Z) (makePrivate : bool) (port shim : Z) (p : Proc) :
  resized
    (trace (exec h (PGSharedMemoryCreate cfg size makePrivate port shim p) s))
  = match
      opened
        (trace (exec h (PGSharedMemoryCreate cfg size makePrivate port shim p) s)),
      stated
        (trace (exec h (PGSharedMemoryCreate cfg size makePrivate port shim p) s))
    with
    | Some fd, Some (rc, st_size) =>
        if (rc =? 0) && negb (size =? st_size) then [(fd, size)] else []
    | _, _ => []
    end.
Proof.
  remember (exec h (PGSharedMemoryCreate cfg size makePrivate port shim p) s)
    as r eqn:Hr.
  unfold PGSharedMemoryCreate, Assert, char_array in Hr.
  repeat step_all Hr.
  all: subst r; cbn [trace resized opened stated]; use_tests; reflexivity.
Qed.

(** X8.  Every classified [FATAL] report of [PGSharedMemoryCreate] (the
    failures of [fstat] and [mmap]) comes right after the descriptor was
    closed, and takes its class from the error number read after that
    [close]: the last two calls of such a run are [close] on the opened
    descriptor and the read of [errno], in this order. *)
Theorem PGSharedMemoryCreate_classifies_after_close
    {S : Type} (h : handler S) (s : S)
    (size : Z) (makePrivate : bool) (port shim : Z) (p : Proc)
    (rep : ErrorData) (code : SqlState) :
  out (exec h (PGSharedMemoryCreate cfg size makePrivate port shim p) s)
    = Aborted (Ereport rep) ->
  elevel rep = FATAL ->
  sqlerrcode rep = Some code ->
  exists (earlier : list event) (fd rc e : Z),
    trace (exec h (PGSharedMemoryCreate cfg size makePrivate port shim p) s)
      = (earlier ++ [Event (close fd) rc; Event errno e])%list /\
    opened (trace (exec h (PGSharedMemoryCreate cfg size makePrivate port shim p) s))
      = Some fd /\
    code = dsm_class e.
Proof.
  remember (exec h (PGSharedMemoryCreate cfg size makePrivate port shim p) s)
    as r eqn:Hr.
  unfold PGSharedMemoryCreate, Assert, char_array in Hr.
  repeat step_all Hr.
  all: subst r; cbn [out trace opened]; intros Hout Hlevel Hcode;
    try discriminate Hout; injection Hout as <-;
    cbn [elevel sqlerrcode] in Hlevel, Hcode;
    try discriminate Hlevel; try discriminate Hcode;
    injection Hcode as <-.
  all: unfold dsm_class;
    first
      [ eexists (_ :: _ :: nil), _, _, _;
        split; [reflexivity|]; split; [reflexivity|]; use_tests; reflexivity
      | eexists (_ :: _ :: _ :: nil), _, _, _;
        split; [reflexivity|]; split; [reflexivity|]; use_tests; reflexivity
      | eexists (_ :: _ :: _ :: _ :: nil), _, _, _;
        split; [reflexivity|]; split; [reflexivity|]; use_tests; reflexivity ].
Qed.

(** X9.  When [PGSharedMemoryCreate] returns, the handle records the
    returned address, which is not [MAP_FAILED], and the requested size
    converted to [int] (the size itself when it is below 2^31); the
    header holds the process id [getpid] gave; the returned address is
    also stored through [shim]; the data directory and the huge-pages
    setting are as before. *)
Theorem PGSharedMemoryCreate_records_mapping
    {S : Type} (h : handler S) (s : S)
    (size : Z) (makePrivate : bool) (port shim : Z) (p : Proc)
    (hdr : Z) (p' : Proc) :
  out (exec h (PGSharedMemoryCreate cfg size makePrivate port shim p) s)
    = Done (hdr, p') ->
  hdr <> MAP_FAILED /\
  UsedShmemSegAddr p' = hdr /\
  UsedShmemSegSize p' = int_of_Size size /\
  (0 <= size < 2 ^ 31 -> UsedShmemSegSize p' = size) /\
  In (Event getpid (creatorPID (load hdr p')))
     (trace (exec h (PGSharedMemoryCreate cfg size makePrivate port shim p) s)) /\
  pointers p' !! shim = Some hdr /\
  DataDir p' = DataDir p /\
  huge_pages p' = huge_pages p.
Proof.
  remember (exec h (PGSharedMemoryCreate cfg size makePrivate port shim p) s)
    as r eqn:Hr.
  unfold PGSharedMemoryCreate, Assert, char_array in Hr.
  repeat step_all Hr.
  all: subst r; cbn [out trace]; intros Hdone; try discriminate Hdone;
    injection Hdone as <- <-.
  all: split; [now apply Z.eqb_neq|].
  all: split; [reflexivity|]. all: split; [reflexivity|].
  all: split;
    [intros Hint; change (int_of_Size size = size); unfold int_of_Size;
     rewrite Z.mod_small by lia; lia|].
  all: split;
    [rewrite load_store_pointer, load_set_UsedShmemSegSize,
       load_set_UsedShmemSegAddr, !load_store;
     cbn [set_dsm_control set_freeoffset set_totalsize set_creatorPID
            creatorPID];
     cbn [In]; tauto|].
  all: split; [unfold store_pointer; cbn [pointers]; apply lookup_insert_eq|].
  all: split; reflexivity.
Qed.

(** X22.  In a build without assertion checking the requested size is
    not looked at before the first call: for every size, also one that
    leaves no room for the header, a process whose derived name fits and
    that passes the huge-pages test goes on to [shm_open] the named
    object with [O_CREAT], and no run stops on a failed assertion. *)
Theorem PGSharedMemoryCreate_any_size_without_assertions
    {S : Type} (h : handler S) (s : S)
    (size : Z) (makePrivate : bool) (port shim : Z) (p : Proc) :
  USE_ASSERT_CHECKING cfg = false ->
  name_fits p ->
  (EXEC_BACKEND cfg || negb (MAP_HUGETLB cfg))
    && HugePagesType_eqb (huge_pages p) HUGE_PAGES_ON = false ->
  (exists fd : Z,
      head (trace (exec h (PGSharedMemoryCreate cfg size makePrivate port shim p)
                     s))
      = Some (Event (shm_open (GenerateSHMName (DataDir p))
                       [O_RDWR; O_CREAT] mode_0600) fd)) /\
  out (exec h (PGSharedMemoryCreate cfg size makePrivate port shim p) s)
    <> Aborted FailedAssertion.
Proof.
  intros Hunchecked Hfit Hpages.
  remember (exec h (PGSharedMemoryCreate cfg size makePrivate port shim p) s)
    as r eqn:Hr.
  unfold PGSharedMemoryCreate, Assert in Hr.
  rewrite Hunchecked, Hpages, (char_array_fits p Hfit) in Hr.
  cbn [andb] in Hr.
  repeat step_all Hr.
  all: subst r; cbn [out trace head];
    split; [eexists; reflexivity | discriminate].
Qed.

End CreateRuns.

Section CreateRunsWitness.
Import CString Name Sample Report Trace Posix Scenario.

Lemma PGSharedMemoryCreate_closes_descriptor_witness :
  opened (trace (exec posix
                   (PGSharedMemoryCreate production 1048576 false 5432 shim_variable
                      (postmaster data_directory HUGE_PAGES_OFF))
                   (boot [None; Some ENOMEM])))
    = Some 3 /\
  3 <> -1 /\
  count is_close
    (trace (exec posix
              (PGSharedMemoryCreate production 1048576 false 5432 shim_variable
                 (postmaster data_directory HUGE_PAGES_OFF))
              (boot [None; Some ENOMEM])))
    = 1%nat.
Proof.
  assert (opened (trace (exec posix
                   (PGSharedMemoryCreate production 1048576 false 5432 shim_variable
                      (postmaster data_directory HUGE_PAGES_OFF))
                   (boot [None; Some ENOMEM])))
          = Some 3) as Hfd by (vm_compute; reflexivity).
  assert (3 <> -1) as Hopen by discriminate.
  split; [exact Hfd|]. split; [exact Hopen|].
  apply (PGSharedMemoryCreate_closes_descriptor production posix
           (boot [None; Some ENOMEM]) 1048576 false 5432 shim_variable
           (postmaster data_directory HUGE_PAGES_OFF) 3 Hfd Hopen).
Defined.

(** The run in which [strdup] finds no memory: the call returns and the
    hook is registered with [NULL]. *)
Lemma PGSharedMemoryCreate_registers_hook_on_return_witness :
  name_fits (postmaster data_directory HUGE_PAGES_OFF) /\
  shim_variable <> NULL /\
  registered
    (trace (exec posix
              (PGSharedMemoryCreate production 1048576 false 5432 shim_variable
                 (postmaster data_directory HUGE_PAGES_OFF))
              (boot [None; None; None; None; None; Some ENOMEM])))
    = [(PGSharedMemoryDelete_callback, None)] /\
  exists copy : option string,
    duplicated
      (trace (exec posix
                (PGSharedMemoryCreate production 1048576 false 5432
                   shim_variable (postmaster data_directory HUGE_PAGES_OFF))
                (boot [None; None; None; None; None; Some ENOMEM])))
    = [(GenerateSHMName (DataDir (postmaster data_directory HUGE_PAGES_OFF)),
        copy)] /\
    registered
      (trace (exec posix
                (PGSharedMemoryCreate production 1048576 false 5432
                   shim_variable (postmaster data_directory HUGE_PAGES_OFF))
                (boot [None; None; None; None; None; Some ENOMEM])))
    = [(PGSharedMemoryDelete_callback, copy)].
Proof.
  assert (name_fits (postmaster data_directory HUGE_PAGES_OFF)) as Hfit
    by (vm_compute; lia).
  assert (shim_variable <> NULL) as Hshim by discriminate.
  split; [exact Hfit|]. split; [exact Hshim|].
  split; [vm_compute; reflexivity|].
  exact (PGSharedMemoryCreate_registers_hook_on_return production posix
           (boot [None; None; None; None; None; Some ENOMEM])
           1048576 false 5432 shim_variable
           (postmaster data_directory HUGE_PAGES_OFF) Hfit Hshim).
Defined.

Lemma PGSharedMemoryCreate_classifies_after_close_witness :
  out (exec posix
         (PGSharedMemoryCreate production 1048576 false 5432 shim_variable
            (postmaster data_directory HUGE_PAGES_OFF))
         (boot [None; Some ENOMEM]))
    = Aborted (Ereport (segment_report "stat" segment_name ENOMEM)) /\
  elevel (segment_report "stat" segment_name ENOMEM) = FATAL /\
  sqlerrcode (segment_report "stat" segment_name ENOMEM)
    = Some ERRCODE_OUT_OF_MEMORY /\
  exists (earlier : list event) (fd rc e : Z),
    trace (exec posix
             (PGSharedMemoryCreate production 1048576 false 5432 shim_variable
                (postmaster data_directory HUGE_PAGES_OFF))
             (boot [None; Some ENOMEM]))
      = (earlier ++ [Event (close fd) rc; Event errno e])%list /\
    opened (trace (exec posix
                     (PGSharedMemoryCreate production 1048576 false 5432 shim_variable
                        (postmaster data_directory HUGE_PAGES_OFF))
                     (boot [None; Some ENOMEM])))
      = Some fd /\
    ERRCODE_OUT_OF_MEMORY = dsm_class e.
Proof.
  assert (out (exec posix
                 (PGSharedMemoryCreate production 1048576 false 5432 shim_variable
                    (postmaster data_directory HUGE_PAGES_OFF))
                 (boot [None; Some ENOMEM]))
          = Aborted (Ereport (segment_report "stat" segment_name ENOMEM)))
    as Hout by (vm_compute; reflexivity).
  split; [exact Hout|]. split; [reflexivity|]. split; [reflexivity|].
  apply (PGSharedMemoryCreate_classifies_after_close production posix
           (boot [None; Some ENOMEM]) 1048576 false 5432 shim_variable
           (postmaster data_directory HUGE_PAGES_OFF)
           (segment_report "stat" segment_name ENOMEM)
           ERRCODE_OUT_OF_MEMORY Hout eq_refl eq_refl).
Defined.

Lemma PGSharedMemoryCreate_records_mapping_witness :
  out created = Done (fst (returned (0, attached) created), creator) /\
  UsedShmemSegAddr creator = fst (returned (0, attached) created).
Proof.
  assert (out created = Done (fst (returned (0, attached) created), creator))
    as Hdone by (vm_compute; reflexivity).
  split; [exact Hdone|].
  destruct (PGSharedMemoryCreate_records_mapping production posix (boot [])
              1048576 false 5432 shim_variable
           (postmaster data_directory HUGE_PAGES_OFF)
              (fst (returned (0, attached) created)) creator Hdone)
    as (_ & Haddr & _).
  exact Haddr.
Defined.

Lemma PGSharedMemoryCreate_any_size_without_assertions_witness :
  USE_ASSERT_CHECKING production = false /\
  name_fits (postmaster data_directory HUGE_PAGES_OFF) /\
  (EXEC_BACKEND production || negb (MAP_HUGETLB production))
    && HugePagesType_eqb
         (huge_pages (postmaster data_directory HUGE_PAGES_OFF))
         HUGE_PAGES_ON = false /\
  40 <= MAXALIGN production (sizeof_PGShmemHeader production) /\
  out (exec posix
         (PGSharedMemoryCreate production 40 false 5432 shim_variable
            (postmaster data_directory HUGE_PAGES_OFF))
         (boot []))
    <> Aborted FailedAssertion.
Proof.
  assert (name_fits (postmaster data_directory HUGE_PAGES_OFF)) as Hfit
    by (vm_compute; lia).
  split; [reflexivity|]. split; [exact Hfit|]. split; [reflexivity|].
  split; [vm_compute; discriminate|].
  apply (PGSharedMemoryCreate_any_size_without_assertions production posix
           (boot []) 40 false 5432 shim_variable
           (postmaster data_directory HUGE_PAGES_OFF) eq_refl Hfit eq_refl).
Defined.

End CreateRunsWitness.

(** ** Calls in the name space, one by one *)

Section PosixCalls.
Import Posix.

Lemma next_fault_descriptors (s : OS) :
  descriptors (snd (next_fault s)) = descriptors s.
Proof. unfold next_fault. now destruct (faults s). Qed.

(** Only [shm_open], [shm_unlink] and [ftruncate] change the objects. *)
Lemma posix_objects_kept {R : Type} (c : call R) (s : OS) :
  match c with
  | shm_open _ _ _ | shm_unlink _ | ftruncate _ _ => False
  | _ => True
  end ->
  objects (snd (posix R c s)) = objects s.
Proof.
  intros Hc. pose proof (next_fault_objects s) as Hobj.
  destruct c; try contradiction; cbn [posix]; unfold fallible;
    try (destruct (next_fault s) as [[e|] s0]; cbn [snd] in Hobj);
    try (exact Hobj); try reflexivity.
  - unfold do_close. now repeat case_match.
  - unfold do_fstat. now repeat case_match.
  - unfold do_mmap. now repeat case_match.
  - now destruct (next_fault s) as [[e|] s'].
Qed.

(** Only [shm_open] and [close] change the descriptors. *)
Lemma posix_descriptors_kept {R : Type} (c : call R) (s : OS) :
  match c with
  | shm_open _ _ _ | close _ => False
  | _ => True
  end ->
  descriptors (snd (posix R c s)) = descriptors s.
Proof.
  intros Hc. pose proof (next_fault_descriptors s) as Hdesc.
  destruct c; try contradiction; cbn [posix]; unfold fallible;
    try (destruct (next_fault s) as [[e|] s0]; cbn [snd] in Hdesc);
    try (exact Hdesc); try reflexivity.
  - unfold do_shm_unlink. now repeat case_match.
  - unfold do_fstat. now repeat case_match.
  - unfold do_ftruncate. now repeat case_match.
  - unfold do_mmap. now repeat case_match.
  - now destruct (next_fault s) as [[e|] s'].
Qed.

(** A successful open-or-create gives a descriptor of the name; it
    creates an empty object when there was none and changes no other. *)
Lemma posix_open_or_create (s s1 : OS) (name : string) (mode fd : Z) :
  posix Z (shm_open name [O_RDWR; O_CREAT] mode) s = (fd, s1) ->
  fd <> -1 ->
  descriptors s1 !! fd = Some name /\
  objects s1 = match objects s !! name with
               | Some _ => objects s
               | None => <[name := 0]> (objects s)
               end.
Proof.
  cbn [posix]. unfold fallible.
  pose proof (next_fault_objects s) as Hobj.
  destruct (next_fault s) as [[e|] s0]; cbn [snd] in Hobj;
    [intros [= <- <-]; congruence|].
  unfold do_shm_open, open_descriptor.
  rewrite (bool_decide_eq_true_2 (O_CREAT ∈ [O_RDWR; O_CREAT]))
    by set_solver.
  rewrite (bool_decide_eq_false_2 (O_EXCL ∈ [O_RDWR; O_CREAT]))
    by (rewrite !elem_of_cons, elem_of_nil; intuition discriminate).
  rewrite Hobj. cbn [andb].
  destruct (objects s !! name) eqn:Hl; intros [= <- <-] _;
    cbn [descriptors objects with_descriptors with_objects];
    rewrite lookup_insert_eq; now rewrite ?Hobj.
Qed.

(** A successful [fstat] stores the size of the object behind the
    descriptor and changes nothing. *)
Lemma posix_fstat_ok (s s1 : OS) (fd rc st_size : Z) :
  posix (Z * Z)%type (fstat fd) s = ((rc, st_size), s1) ->
  rc = 0 ->
  objects s1 = objects s /\
  descriptors s1 = descriptors s /\
  exists name, descriptors s !! fd = Some name /\
               objects s !! name = Some st_size.
Proof.
  cbn [posix]. unfold fallible.
  pose proof (next_fault_objects s) as Hobj.
  pose proof (next_fault_descriptors s) as Hdesc.
  destruct (next_fault s) as [[e|] s0]; cbn [snd] in Hobj, Hdesc;
    [intros [= <- <- <-]; discriminate|].
  unfold do_fstat, object_of. rewrite Hobj, Hdesc.
  destruct (descriptors s !! fd) as [name|] eqn:Hfd; cbn;
    [|intros [= <- <- <-]; discriminate].
  destruct (objects s !! name) as [n|] eqn:Hname; cbn;
    intros [= <- <- <-]; [|discriminate].
  intros _. eauto.
Qed.

(** A successful [ftruncate] gives the object behind the descriptor the
    new size and changes no other. *)
Lemma posix_ftruncate_ok (s s1 : OS) (fd len r : Z) :
  posix Z (ftruncate fd len) s = (r, s1) ->
  r <> -1 ->
  exists name, descriptors s !! fd = Some name /\
               objects s1 = <[name := len]> (objects s).
Proof.
  cbn [posix]. unfold fallible.
  pose proof (next_fault_objects s) as Hobj.
  pose proof (next_fault_descriptors s) as Hdesc.
  destruct (next_fault s) as [[e|] s0]; cbn [snd] in Hobj, Hdesc;
    [intros [= <- <-]; congruence|].
  unfold do_ftruncate, object_of. rewrite Hobj, Hdesc.
  destruct (descriptors s !! fd) as [name|] eqn:Hfd; cbn;
    [|intros [= <- <-]; congruence].
  destruct (objects s !! name) as [n|] eqn:Hname; cbn;
    intros [= <- <-]; [|congruence].
  intros _. exists name. now cbn.
Qed.

(** [shm_unlink] removes the name when it succeeds and nothing when it
    fails. *)
Lemma posix_unlink_result (s s1 : OS) (name : string) (r : Z) :
  posix Z (shm_unlink name) s = (r, s1) ->
  objects s1 = if r =? -1 then objects s else delete name (objects s).
Proof.
  cbn [posix]. unfold fallible.
  pose proof (next_fault_objects s) as Hobj.
  destruct (next_fault s) as [[e|] s0]; cbn [snd] in Hobj;
    [now intros [= <- <-]|].
  unfold do_shm_unlink. rewrite Hobj.
  destruct (objects s !! name); now intros [= <- <-].
Qed.

End PosixCalls.

(** Records, for each call in the context that leaves the objects or the
    descriptors alone, that it did. *)
Ltac keep_objects :=
  repeat match goal with
    | Hc : Posix.posix ?R ?c ?s = (_, ?s') |- _ =>
        lazymatch goal with
        | _ : Posix.objects s' = Posix.objects s |- _ => fail
        | _ => idtac
        end;
        let Hk := fresh "Hsame" in
        pose proof (posix_objects_kept c s I) as Hk;
        rewrite Hc in Hk; cbn [snd] in Hk
    end.

Ltac keep_descriptors :=
  repeat match goal with
    | Hc : Posix.posix ?R ?c ?s = (_, ?s') |- _ =>
        lazymatch goal with
        | _ : Posix.descriptors s' = Posix.descriptors s |- _ => fail
        | _ => idtac
        end;
        let Hk := fresh "Hsamed" in
        pose proof (posix_descriptors_kept c s I) as Hk;
        rewrite Hc in Hk; cbn [snd] in Hk
    end.

(** ** Creating the segment in the name space *)

Section CreateInNameSpace.
Import CString Name Sample Report Trace Posix Scenario.

Variable cfg : Config.

(** The objects after a run of [PGSharedMemoryCreate] that returns. *)
Lemma PGSharedMemoryCreate_objects (s : OS)
    (size : Z) (makePrivate : bool) (port shim : Z) (p : Proc) (x : Z * Proc) :
  out (exec posix (PGSharedMemoryCreate cfg size makePrivate port shim p) s)
    = Done x ->
  objects (final (exec posix
                    (PGSharedMemoryCreate cfg size makePrivate port shim p) s))
  = <[GenerateSHMName (DataDir p) := size]> (objects s).
Proof.
  remember (exec posix (PGSharedMemoryCreate cfg size makePrivate port shim p) s)
    as r eqn:Hr.
  intros Hdone. unfold PGSharedMemoryCreate, Assert, char_array in Hr.
  repeat step_all Hr.
  all: subst r; cbn [out final] in *; try discriminate Hdone.
  all: keep_objects; keep_descriptors.
  all: match goal with
       | Hc : posix Z (shm_open ?n _ ?m) ?s0 = (?fd, ?s1),
         Ht : (?fd =? -1) = false |- _ =>
           apply Z.eqb_neq in Ht;
           destruct (posix_open_or_create s0 s1 n m fd Hc Ht)
             as [Hfd Hopened]
       end.
  all: match goal with
       | Hc : posix _ (fstat ?fd) ?s0 = ((?rc, ?sz), ?s1),
         Ht : negb (?rc =? 0) = false |- _ =>
           apply negb_false_iff, Z.eqb_eq in Ht;
           destruct (posix_fstat_ok s0 s1 fd rc sz Hc Ht)
             as (_ & _ & name' & Hfd' & Hsize)
       end.
  all: assert (name' = GenerateSHMName (DataDir p)) as -> by congruence.
  - (* resized *)
    match goal with
    | Hc : posix Z (ftruncate ?fd ?len) ?s0 = (?r, ?s1),
      Ht : (?r =? -1) = false |- _ =>
        apply Z.eqb_neq in Ht;
        destruct (posix_ftruncate_ok s0 s1 fd len r Hc Ht)
          as (name'' & Hfd'' & Hresized)
    end.
    assert (name'' = GenerateSHMName (DataDir p)) as -> by congruence.
    repeat match goal with H : objects _ = objects _ |- _ => rewrite H end.
    rewrite Hresized.
    repeat match goal with H : objects _ = objects _ |- _ => rewrite H end.
    rewrite Hopened.
    destruct (objects s !! GenerateSHMName (DataDir p));
      [reflexivity | apply insert_insert_eq].
  - (* the size was right already *)
    match goal with
    | Ht : negb (size =? _) = false |- _ =>
        apply negb_false_iff, Z.eqb_eq in Ht; subst
    end.
    repeat match goal with H : objects _ = objects _ |- _ => rewrite H end.
    repeat match goal with
           | H : objects _ = objects _ |- _ => rewrite H in Hsize
           end.
    rewrite Hopened in *.
    destruct (objects s !! GenerateSHMName (DataDir p)) eqn:Hwas.
    + now rewrite insert_id.
    + rewrite lookup_insert_eq in Hsize. now injection Hsize as <-.
Qed.

(** X10.  When [PGSharedMemoryCreate] returns, the named object exists
    with exactly the requested size, whether the call created it or found
    it with another size, and every other object is as before. *)
Theorem PGSharedMemoryCreate_object_has_size (s : OS)
    (size : Z) (makePrivate : bool) (port shim : Z) (p : Proc) (x : Z * Proc) :
  out (exec posix (PGSharedMemoryCreate cfg size makePrivate port shim p) s)
    = Done x ->
  objects (final (exec posix
                    (PGSharedMemoryCreate cfg size makePrivate port shim p) s))
    !! GenerateSHMName (DataDir p) = Some size /\
  forall other : string,
    other <> GenerateSHMName (DataDir p) ->
    objects (final (exec posix
                      (PGSharedMemoryCreate cfg size makePrivate port shim p) s))
      !! other = objects s !! other.
Proof.
  intros Hdone. rewrite (PGSharedMemoryCreate_objects s _ _ _ _ _ x Hdone).
  split; [apply lookup_insert_eq|].
  intros other Hother. now apply lookup_insert_ne.
Qed.

(** X11.  An object that [PGSharedMemoryCreate] opened or created stays
    when the function stops afterwards (at [fstat], [ftruncate] or
    [mmap]), as it does when it returns; from then on the probe answers
    true. *)
Theorem PGSharedMemoryCreate_failure_leaves_object (s : OS)
    (size : Z) (makePrivate : bool) (port shim : Z) (p : Proc)
    (id1 id2 fd : Z) :
  opened (trace (exec posix
                   (PGSharedMemoryCreate cfg size makePrivate port shim p) s))
    = Some fd ->
  fd <> -1 ->
  is_Some (objects (final (exec posix (PGSharedMemoryCreate cfg size
                                         makePrivate port shim p) s))
             !! GenerateSHMName (DataDir p)) /\
  out (exec posix (PGSharedMemoryIsInUse id1 id2 p)
         (final (exec posix
                   (PGSharedMemoryCreate cfg size makePrivate port shim p) s)))
    = Done true.
Proof.
  remember (exec posix (PGSharedMemoryCreate cfg size makePrivate port shim p) s)
    as r eqn:Hr.
  unfold PGSharedMemoryCreate, Assert, char_array in Hr.
  repeat step_all Hr.
  all: subst r; cbn [trace opened final]; intros Hfd Hopen;
    try discriminate Hfd; injection Hfd as ->.
  all: try match goal with
           | H : (?z =? -1) = true, Hn : ?z <> -1 |- _ =>
               apply Z.eqb_eq in H; contradiction
           end.
  all: match goal with
       | H : (_ <? _)%nat = true |- _ => apply Nat.ltb_lt in H
       end.
  all: match goal with
       | Hc : posix Z (shm_open ?n ?fl ?m) ?s0 = (?z, ?s1) |- _ =>
           let Hk := fresh "Hkept" in
           pose proof (posix_create_leaves_object s0 n m) as Hk;
           rewrite Hc in Hk; cbn [fst snd] in Hk; specialize (Hk Hopen)
       end.
  all: carry_object.
  all: split; [assumption|].
  all: now apply PGSharedMemoryIsInUse_existing.
Qed.

End CreateInNameSpace.

Section CreateInNameSpaceWitness.
Import CString Name Sample Report Trace Posix Scenario.

Lemma PGSharedMemoryCreate_object_has_size_witness :
  out created = Done (returned (0, attached) created) /\
  objects (final created) = <[segment_name := 1048576]> ∅.
Proof.
  assert (out created = Done (returned (0, attached) created)) as Hdone
    by (vm_compute; reflexivity).
  split; [exact Hdone|].
  apply map_eq. intros other.
  destruct (PGSharedMemoryCreate_object_has_size production (boot [])
              1048576 false 5432 shim_variable
           (postmaster data_directory HUGE_PAGES_OFF)
              (returned (0, attached) created) Hdone) as [Hnamed Hothers].
  destruct (decide (other = segment_name)) as [->|Hne].
  - rewrite lookup_insert_eq. exact Hnamed.
  - rewrite lookup_insert_ne by congruence. now apply Hothers.
Defined.

Lemma PGSharedMemoryCreate_failure_leaves_object_witness :
  opened (trace (exec posix
                   (PGSharedMemoryCreate production 1048576 false 5432 shim_variable
                      (postmaster data_directory HUGE_PAGES_OFF))
                   (boot [None; None; None; Some ENOMEM])))
    = Some 3 /\
  3 <> -1 /\
  out (exec posix
         (PGSharedMemoryIsInUse 0 0 (postmaster data_directory HUGE_PAGES_OFF))
         (final (exec posix
                   (PGSharedMemoryCreate production 1048576 false 5432 shim_variable
                      (postmaster data_directory HUGE_PAGES_OFF))
                   (boot [None; None; None; Some ENOMEM]))))
    = Done true.
Proof.
  assert (opened (trace (exec posix
                   (PGSharedMemoryCreate production 1048576 false 5432 shim_variable
                      (postmaster data_directory HUGE_PAGES_OFF))
                   (boot [None; None; None; Some ENOMEM])))
          = Some 3) as Hfd by (vm_compute; reflexivity).
  assert (3 <> -1) as Hopen by discriminate.
  split; [exact Hfd|]. split; [exact Hopen|].
  apply (PGSharedMemoryCreate_failure_leaves_object production
           (boot [None; None; None; Some ENOMEM]) 1048576 false 5432 shim_variable
           (postmaster data_directory HUGE_PAGES_OFF) 0 0 3 Hfd Hopen).
Defined.

End CreateInNameSpaceWitness.

(** ** The probe when calls fail *)

Section ProbeFailures.
Import CString Name Sample Report Trace Posix Scenario.

(** X12.  A probe whose [shm_open] fails for a reason outside the name
    space (no memory, no descriptors, no permission) answers true also
    when no object of the name exists, and changes nothing in the name
    space. *)
Theorem PGSharedMemoryIsInUse_true_on_any_failure
    (s : OS) (id1 id2 : Z) (p : Proc) :
  name_fits p ->
  next_call_fails s = true ->
  out (exec posix (PGSharedMemoryIsInUse id1 id2 p) s) = Done true /\
  objects (final (exec posix (PGSharedMemoryIsInUse id1 id2 p) s))
    = objects s /\
  length (trace (exec posix (PGSharedMemoryIsInUse id1 id2 p) s)) = 1%nat.
Proof.
  intros Hfit Hfails. rewrite PGSharedMemoryIsInUse_exec by assumption.
  cbv zeta. cbn [posix]. unfold fallible, next_fault.
  unfold next_call_fails in Hfails.
  destruct (faults s) as [|[e|] rest]; try discriminate Hfails.
  now cbn.
Qed.

Lemma PGSharedMemoryIsInUse_true_on_any_failure_witness :
  name_fits (postmaster data_directory HUGE_PAGES_OFF) /\
  next_call_fails (boot [Some ENOMEM]) = true /\
  objects (boot [Some ENOMEM]) !! segment_name = None /\
  out (exec posix
         (PGSharedMemoryIsInUse 0 0 (postmaster data_directory HUGE_PAGES_OFF))
         (boot [Some ENOMEM])) = Done true.
Proof.
  assert (name_fits (postmaster data_directory HUGE_PAGES_OFF)) as Hfit
    by (vm_compute; lia).
  split; [exact Hfit|]. split; [reflexivity|]. split; [reflexivity|].
  apply (PGSharedMemoryIsInUse_true_on_any_failure (boot [Some ENOMEM]) 0 0
           (postmaster data_directory HUGE_PAGES_OFF) Hfit eq_refl).
Defined.

(** X13.  The probe does not look at what [shm_unlink] returns: when the
    name is free, the create succeeds and the unlink fails, the probe
    still answers false, the empty object it created stays, and the next
    probe answers true. *)
Theorem PGSharedMemoryIsInUse_unchecked_unlink
    (s : OS) (id1 id2 : Z) (p : Proc)
    (on_close : option Z) (e : Z) (rest : list (option Z)) :
  name_fits p ->
  objects s !! GenerateSHMName (DataDir p) = None ->
  faults s = None :: on_close :: Some e :: rest ->
  out (exec posix (PGSharedMemoryIsInUse id1 id2 p) s) = Done false /\
  objects (final (exec posix (PGSharedMemoryIsInUse id1 id2 p) s))
    = <[GenerateSHMName (DataDir p) := 0]> (objects s) /\
  out (exec posix (PGSharedMemoryIsInUse id1 id2 p)
         (final (exec posix (PGSharedMemoryIsInUse id1 id2 p) s)))
    = Done true.
Proof.
  intros Hfit Hfree Hfaults.
  assert (out (exec posix (PGSharedMemoryIsInUse id1 id2 p) s) = Done false /\
          objects (final (exec posix (PGSharedMemoryIsInUse id1 id2 p) s))
            = <[GenerateSHMName (DataDir p) := 0]> (objects s))
    as [Hout Hobj].
  { rewrite PGSharedMemoryIsInUse_exec by assumption.
    cbv zeta. cbn [posix]. unfold fallible, next_fault. rewrite Hfaults.
    unfold do_shm_open. cbn [objects with_faults]. rewrite Hfree.
    rewrite bool_decide_eq_true_2 by set_solver.
    unfold open_descriptor, do_close, do_shm_unlink.
    cbn [next_fd descriptors objects faults with_objects with_descriptors
           with_faults].
    assert ((Z.of_N (next_fd s) =? -1) = false) as ->
      by (apply Z.eqb_neq; lia).
    destruct on_close as [e'|];
      cbn [next_fd descriptors objects faults with_objects with_descriptors
             with_faults with_errno];
      rewrite ?lookup_insert_eq;
      cbn [next_fd descriptors objects faults with_objects with_descriptors
             with_faults with_errno out final];
      split; reflexivity. }
  split; [exact Hout|]. split; [exact Hobj|].
  apply PGSharedMemoryIsInUse_existing; [assumption|].
  rewrite Hobj, lookup_insert_eq. eauto.
Qed.

Lemma PGSharedMemoryIsInUse_unchecked_unlink_witness :
  name_fits (postmaster data_directory HUGE_PAGES_OFF) /\
  objects (boot [None; None; Some ENOENT])
    !! GenerateSHMName (DataDir (postmaster data_directory HUGE_PAGES_OFF))
    = None /\
  faults (boot [None; None; Some ENOENT]) = None :: None :: Some ENOENT :: [] /\
  out (exec posix
         (PGSharedMemoryIsInUse 0 0 (postmaster data_directory HUGE_PAGES_OFF))
         (boot [None; None; Some ENOENT])) = Done false.
Proof.
  assert (name_fits (postmaster data_directory HUGE_PAGES_OFF)) as Hfit
    by (vm_compute; lia).
  split; [exact Hfit|]. split; [reflexivity|]. split; [reflexivity|].
  apply (PGSharedMemoryIsInUse_unchecked_unlink
           (boot [None; None; Some ENOENT]) 0 0
           (postmaster data_directory HUGE_PAGES_OFF) None ENOENT []
           Hfit eq_refl eq_refl).
Defined.

End ProbeFailures.

(** ** Detaching and removing: every run *)

Section DetachRuns.
Import CString Name Sample Report Trace Posix Scenario.

Variable cfg : Config.

(** A run of [PGSharedMemoryDetach] that returns clears the handle of a
    process whose name fits. *)
Lemma PGSharedMemoryDetach_returns {S : Type} (h : handler S) (s : S)
    (p : Proc) (x : unit * Proc) :
  out (exec h (PGSharedMemoryDetach cfg p) s) = Done x ->
  x = (tt, detached p) /\ name_fits p.
Proof.
  remember (exec h (PGSharedMemoryDetach cfg p) s) as r eqn:Hr.
  intros Hdone. unfold PGSharedMemoryDetach, char_array in Hr.
  repeat step_all Hr.
  all: subst r; cbn [out] in Hdone; try discriminate Hdone.
  all: injection Hdone as <-.
  all: match goal with
       | H : (_ <? _)%nat = true |- _ => apply Nat.ltb_lt in H
       end.
  all: split; [reflexivity | assumption].
Qed.

(** The calls of [PGSharedMemoryDetach]. *)
Lemma PGSharedMemoryDetach_calls {S : Type} (h : handler S) (s : S)
    (p : Proc) :
  forallb (fun e => is_munmap e || is_errno e)
    (trace (exec h (PGSharedMemoryDetach cfg p) s)) = true /\
  unmapped (trace (exec h (PGSharedMemoryDetach cfg p) s))
  = if (String.length (GenerateSHMName (DataDir p)) <? 64)%nat
       && negb (UsedShmemSegAddr p =? NULL)
    then [(UsedShmemSegAddr p, Size_of_int cfg (UsedShmemSegSize p))]
    else [].
Proof.
  remember (exec h (PGSharedMemoryDetach cfg p) s) as r eqn:Hr.
  unfold PGSharedMemoryDetach, char_array in Hr.
  repeat step_all Hr.
  all: subst r; cbn [trace unmapped forallb is_munmap is_errno orb andb];
    use_tests; split; reflexivity.
Qed.

Lemma PGSharedMemoryDetach_objects (s : OS) (p : Proc) :
  objects (final (exec posix (PGSharedMemoryDetach cfg p) s)) = objects s.
Proof.
  remember (exec posix (PGSharedMemoryDetach cfg p) s) as r eqn:Hr.
  unfold PGSharedMemoryDetach, char_array in Hr.
  repeat step_all Hr.
  all: subst r; cbn [final]; keep_objects; congruence.
Qed.

(** X14.  For a derived name that fits its array, [PGSharedMemoryDetach]
    only unmaps: in every environment its calls are [munmap] and, after
    a failure, the read of [errno]; it unmaps the recorded mapping, once,
    when the handle holds an address and nothing otherwise; and it leaves
    every shared-memory object in place. *)
Theorem PGSharedMemoryDetach_only_unmaps (p : Proc) :
  name_fits p ->
  (forall (S : Type) (h : handler S) (s : S),
      forallb (fun e => is_munmap e || is_errno e)
        (trace (exec h (PGSharedMemoryDetach cfg p) s)) = true /\
      unmapped (trace (exec h (PGSharedMemoryDetach cfg p) s))
      = if negb (UsedShmemSegAddr p =? NULL)
        then [(UsedShmemSegAddr p, Size_of_int cfg (UsedShmemSegSize p))]
        else []) /\
  forall s : OS,
    objects (final (exec posix (PGSharedMemoryDetach cfg p) s)) = objects s.
Proof.
  intros Hfit. split.
  - intros S h s.
    destruct (PGSharedMemoryDetach_calls h s p) as [Honly Hunmapped].
    split; [exact Honly|]. rewrite Hunmapped.
    apply Nat.ltb_lt in Hfit. now rewrite Hfit.
  - intros s. apply PGSharedMemoryDetach_objects.
Qed.

(** X15.  When [munmap] fails, [PGSharedMemoryDetach] stops at once with
    a [FATAL] report that names the segment and is classified by the
    error number read after the failure; the handle is not cleared. *)
Theorem PGSharedMemoryDetach_unmap_failure
    {S : Type} (h : handler S) (s : S) (p : Proc) :
  name_fits p ->
  UsedShmemSegAddr p <> NULL ->
  fst (h Z (munmap (UsedShmemSegAddr p)
              (Size_of_int cfg (UsedShmemSegSize p))) s) = -1 ->
  let unmap := munmap (UsedShmemSegAddr p)
                 (Size_of_int cfg (UsedShmemSegSize p)) in
  let s1 := snd (h Z unmap s) in
  let e := fst (h Z errno s1) in
  exec h (PGSharedMemoryDetach cfg p) s
  = Run (Aborted (Ereport
                    {| elevel := FATAL;
                       sqlerrcode := Some (dsm_class e);
                       message := "could not unmap shared memory segment "
                                    +:+ dquote +:+ "%s" +:+ dquote +:+ ": %m";
                       message_args := [ArgStr (GenerateSHMName (DataDir p))]
                    |}))
        (snd (h Z errno s1))
        [Event unmap (-1); Event errno e].
Proof.
  intros Hfit Hmapped Hfails unmap s1 e.
  rewrite (PGSharedMemoryDetach_mapped cfg h s p Hfit Hmapped).
  subst e s1. fold unmap in Hfails |- *.
  destruct (h Z unmap s) as [r s1]. cbn [fst snd] in *. subst r.
  cbn [Z.eqb]. now destruct (h Z errno s1) as [e s2].
Qed.

(** The conversions of the size between [Size] and [int]. *)
Lemma Size_of_int_of_Size (size : Z) :
  (0 <= size < 2 ^ 31 /\ 31 <= SIZE_BITS cfg) \/
  (SIZE_BITS cfg = 32 /\ 0 <= size < 2 ^ 32) ->
  Size_of_int cfg (int_of_Size size) = size.
Proof.
  unfold Size_of_int, int_of_Size, uintptr.
  intros [[Hsize Hbits] | [Hbits Hsize]].
  - rewrite (Z.mod_small (size + 2 ^ 31)) by lia.
    replace (size + 2 ^ 31 - 2 ^ 31) with size by lia.
    apply Z.mod_small. split; [lia|].
    assert (2 ^ 31 <= 2 ^ SIZE_BITS cfg)
      by (apply Z.pow_le_mono_r; lia). lia.
  - rewrite Hbits. rewrite Zminus_mod_idemp_l.
    replace (size + 2 ^ 31 - 2 ^ 31) with size by lia.
    now apply Z.mod_small.
Qed.

Lemma Size_of_int_of_Size_wide (size : Z) :
  SIZE_BITS cfg = 64 ->
  2 ^ 31 <= size < 2 ^ 32 ->
  Size_of_int cfg (int_of_Size size) = size + (2 ^ 64 - 2 ^ 32).
Proof.
  unfold Size_of_int, int_of_Size, uintptr. intros -> Hsize.
  replace ((size + 2 ^ 31) mod 2 ^ 32) with (size + 2 ^ 31 - 2 ^ 32).
  - replace (size + 2 ^ 31 - 2 ^ 32 - 2 ^ 31) with (size - 2 ^ 32) by lia.
    replace (size - 2 ^ 32) with (size + (2 ^ 64 - 2 ^ 32) + (-1) * 2 ^ 64)
      by lia.
    rewrite Z.mod_add by lia. apply Z.mod_small. lia.
  - replace (size + 2 ^ 31) with (size + 2 ^ 31 - 2 ^ 32 + 1 * 2 ^ 32) at 2
      by lia.
    rewrite Z.mod_add by lia. symmetry. apply Z.mod_small. lia.
Qed.

(** The handle after a run of [PGSharedMemoryCreate] that returns. *)
Lemma PGSharedMemoryCreate_handle {S : Type} (h : handler S) (s : S)
    (size : Z) (makePrivate : bool) (port shim : Z) (p : Proc)
    (hdr : Z) (p' : Proc) :
  out (exec h (PGSharedMemoryCreate cfg size makePrivate port shim p) s)
    = Done (hdr, p') ->
  UsedShmemSegAddr p' = hdr /\
  UsedShmemSegSize p' = int_of_Size size /\
  DataDir p' = DataDir p /\
  name_fits p.
Proof.
  remember (exec h (PGSharedMemoryCreate cfg size makePrivate port shim p) s)
    as r eqn:Hr.
  intros Hdone. unfold PGSharedMemoryCreate, Assert, char_array in Hr.
  repeat step_all Hr.
  all: subst r; cbn [out] in Hdone; try discriminate Hdone.
  all: injection Hdone as <- <-.
  all: match goal with
       | H : (_ <? _)%nat = true |- _ => apply Nat.ltb_lt in H
       end.
  all: repeat split; assumption || reflexivity.
Qed.

(** X16.  Create, then detach: when the requested size is below 2^31, or
    [Size] has 32 bits, [PGSharedMemoryDetach] after a
    [PGSharedMemoryCreate] that returned unmaps exactly the mapping that
    was made, the returned address with the requested size. *)
Theorem PGSharedMemoryCreate_then_Detach
    {S : Type} (h : handler S) (s : S)
    (size : Z) (makePrivate : bool) (port shim : Z) (p : Proc)
    (hdr : Z) (p' : Proc) :
  out (exec h (PGSharedMemoryCreate cfg size makePrivate port shim p) s)
    = Done (hdr, p') ->
  hdr <> NULL ->
  (0 <= size < 2 ^ 31 /\ 31 <= SIZE_BITS cfg) \/
  (SIZE_BITS cfg = 32 /\ 0 <= size < 2 ^ 32) ->
  forall (S' : Type) (h' : handler S') (s' : S'),
    unmapped (trace (exec h' (PGSharedMemoryDetach cfg p') s'))
      = [(hdr, size)].
Proof.
  intros Hdone Hmapped Hsize S' h' s'.
  apply PGSharedMemoryCreate_handle in Hdone
    as (Haddr & Hrecorded & Hdir & Hfit).
  destruct (PGSharedMemoryDetach_calls h' s' p') as [_ ->].
  rewrite Hdir, Haddr, Hrecorded.
  apply Nat.ltb_lt in Hfit. rewrite Hfit.
  apply Z.eqb_neq in Hmapped. rewrite Hmapped. cbn [andb negb].
  now rewrite Size_of_int_of_Size.
Qed.

(** X17.  The handle keeps the size in an [int].  On a build whose
    [Size] has 64 bits, for a requested size from 2^31 up to 2^32,
    [PGSharedMemoryDetach] after a [PGSharedMemoryCreate] that returned
    calls [munmap] with the length [size + 2^64 - 2^32], which is not the
    length that was mapped. *)
Theorem PGSharedMemoryCreate_then_Detach_wide
    {S : Type} (h : handler S) (s : S)
    (size : Z) (makePrivate : bool) (port shim : Z) (p : Proc)
    (hdr : Z) (p' : Proc) :
  out (exec h (PGSharedMemoryCreate cfg size makePrivate port shim p) s)
    = Done (hdr, p') ->
  hdr <> NULL ->
  SIZE_BITS cfg = 64 ->
  2 ^ 31 <= size < 2 ^ 32 ->
  (forall (S' : Type) (h' : handler S') (s' : S'),
      unmapped (trace (exec h' (PGSharedMemoryDetach cfg p') s'))
        = [(hdr, size + (2 ^ 64 - 2 ^ 32))]) /\
  size + (2 ^ 64 - 2 ^ 32) <> size.
Proof.
  intros Hdone Hmapped Hbits Hsize. split; [|lia].
  intros S' h' s'.
  apply PGSharedMemoryCreate_handle in Hdone
    as (Haddr & Hrecorded & Hdir & Hfit).
  destruct (PGSharedMemoryDetach_calls h' s' p') as [_ ->].
  rewrite Hdir, Haddr, Hrecorded.
  apply Nat.ltb_lt in Hfit. rewrite Hfit.
  apply Z.eqb_neq in Hmapped. rewrite Hmapped. cbn [andb negb].
  now rewrite Size_of_int_of_Size_wide.
Qed.

End DetachRuns.

Section DetachRunsWitness.
Import CString Name Sample Report Trace Posix Scenario.

Lemma PGSharedMemoryDetach_only_unmaps_witness :
  name_fits attached /\
  unmapped (trace (exec posix (PGSharedMemoryDetach production attached)
                     (boot [])))
    = [(268435456, 1048576)].
Proof.
  assert (name_fits attached) as Hfit by (vm_compute; lia).
  split; [exact Hfit|].
  destruct (PGSharedMemoryDetach_only_unmaps production attached Hfit)
    as [Hcalls _].
  destruct (Hcalls OS posix (boot [])) as [_ Hunmapped].
  rewrite Hunmapped. reflexivity.
Defined.

Lemma PGSharedMemoryDetach_unmap_failure_witness :
  name_fits attached /\
  UsedShmemSegAddr attached <> NULL /\
  fst (posix Z (munmap (UsedShmemSegAddr attached)
                  (Size_of_int production (UsedShmemSegSize attached)))
         (boot [Some ENOMEM])) = -1 /\
  out (exec posix (PGSharedMemoryDetach production attached)
         (boot [Some ENOMEM]))
    = Aborted (Ereport (segment_report "unmap" segment_name ENOMEM)).
Proof.
  assert (name_fits attached) as Hfit by (vm_compute; lia).
  assert (UsedShmemSegAddr attached <> NULL) as Hmapped by discriminate.
  assert (fst (posix Z (munmap (UsedShmemSegAddr attached)
                          (Size_of_int production (UsedShmemSegSize attached)))
                 (boot [Some ENOMEM])) = -1) as Hfails by reflexivity.
  split; [exact Hfit|]. split; [exact Hmapped|]. split; [exact Hfails|].
  rewrite (PGSharedMemoryDetach_unmap_failure production posix
             (boot [Some ENOMEM]) attached Hfit Hmapped Hfails).
  vm_compute; reflexivity.
Defined.

Lemma PGSharedMemoryCreate_then_Detach_witness :
  out created = Done (fst (returned (0, attached) created), creator) /\
  fst (returned (0, attached) created) <> NULL /\
  ((0 <= 1048576 < 2 ^ 31 /\ 31 <= SIZE_BITS production) \/
   (SIZE_BITS production = 32 /\ 0 <= 1048576 < 2 ^ 32)) /\
  unmapped (trace (exec posix (PGSharedMemoryDetach production creator)
                     running))
    = [(fst (returned (0, attached) created), 1048576)].
Proof.
  assert (out created = Done (fst (returned (0, attached) created), creator))
    as Hdone by (vm_compute; reflexivity).
  assert (fst (returned (0, attached) created) <> NULL) as Hmapped
    by (vm_compute; discriminate).
  assert ((0 <= 1048576 < 2 ^ 31 /\ 31 <= SIZE_BITS production) \/
          (SIZE_BITS production = 32 /\ 0 <= 1048576 < 2 ^ 32)) as Hsize
    by (left; cbn [SIZE_BITS production]; lia).
  split; [exact Hdone|]. split; [exact Hmapped|]. split; [exact Hsize|].
  apply (PGSharedMemoryCreate_then_Detach production posix (boot [])
           1048576 false 5432 shim_variable
           (postmaster data_directory HUGE_PAGES_OFF)
           (fst (returned (0, attached) created)) creator
           Hdone Hmapped Hsize OS posix running).
Defined.

Lemma PGSharedMemoryCreate_then_Detach_wide_witness :
  out created_wide
    = Done (fst (returned (0, attached) created_wide),
            snd (returned (0, attached) created_wide)) /\
  fst (returned (0, attached) created_wide) <> NULL /\
  SIZE_BITS wide = 64 /\
  2 ^ 31 <= 2147483648 < 2 ^ 32 /\
  2147483648 + (2 ^ 64 - 2 ^ 32) <> 2147483648.
Proof.
  assert (out created_wide
          = Done (fst (returned (0, attached) created_wide),
                  snd (returned (0, attached) created_wide))) as Hdone
    by (vm_compute; reflexivity).
  assert (fst (returned (0, attached) created_wide) <> NULL) as Hmapped
    by (vm_compute; discriminate).
  assert (2 ^ 31 <= 2147483648 < 2 ^ 32) as Hsize by lia.
  split; [exact Hdone|]. split; [exact Hmapped|]. split; [reflexivity|].
  split; [exact Hsize|].
  apply (PGSharedMemoryCreate_then_Detach_wide wide posix (boot [])
           2147483648 false 5432 shim_variable (postmaster data_directory HUGE_PAGES_OFF)
           (fst (returned (0, attached) created_wide))
           (snd (returned (0, attached) created_wide))
           Hdone Hmapped eq_refl Hsize).
Defined.

End DetachRunsWitness.

(** ** Removing the segment in the name space *)

Section DeleteInNameSpace.
Import CString Name Sample Report Trace Posix Scenario.

Variable cfg : Config.

(** The objects after a run of [PGSharedMemoryDelete] that returns. *)
Lemma PGSharedMemoryDelete_objects (s : OS) (status : Z) (name : string)
    (p : Proc) (x : unit * Proc) :
  out (exec posix (PGSharedMemoryDelete cfg status name p) s) = Done x ->
  x = (tt, detached p) /\
  name_fits p /\
  is_Some (objects s !! name) /\
  objects (final (exec posix (PGSharedMemoryDelete cfg status name p) s))
    = delete name (objects s).
Proof.
  remember (exec posix (PGSharedMemoryDelete cfg status name p) s)
    as r eqn:Hr.
  intros Hdone. unfold PGSharedMemoryDelete in Hr.
  rewrite exec_bind in Hr.
  pose proof (PGSharedMemoryDetach_objects cfg s p) as Hdetached.
  pose proof (PGSharedMemoryDetach_returns cfg posix s p) as Hreturned.
  destruct (exec posix (PGSharedMemoryDetach cfg p) s)
    as [[[[] p']|w] s1 t1]; cbn [out final trace] in Hr, Hdetached, Hreturned;
    [|subst r; discriminate Hdone].
  destruct (Hreturned _ eq_refl) as [[= ->] Hfit].
  repeat step_all Hr.
  all: subst r; cbn [out final] in *; try discriminate Hdone.
  injection Hdone as <-.
  keep_objects.
  match goal with
  | Hc : posix Z (shm_unlink name) s1 = (?rc, ?s2) |- _ =>
      pose proof (posix_unlink_result s1 s2 name rc Hc) as Hunlinked;
      pose proof (posix_unlink_frees_name s1 name) as Hfreed;
      rewrite Hc in Hfreed; cbn [fst snd] in Hfreed
  end.
  use_tests. apply Z.eqb_neq in Htest. specialize (Hfreed Htest).
  repeat split; try assumption.
  - destruct (objects s !! name) eqn:Hwas; [eauto|].
    exfalso. clear Hfreed.
    match goal with
    | Hc : posix Z (shm_unlink name) s1 = (?rc, ?s2) |- _ =>
        revert Hc; cbn [posix]; unfold fallible;
        pose proof (next_fault_objects s1) as Hobj;
        destruct (next_fault s1) as [[e|] s0]; cbn [snd] in Hobj;
        [intros [= <- <-]; congruence|];
        unfold do_shm_unlink; rewrite Hobj, Hdetached, Hwas;
        intros [= <- <-]; congruence
    end.
  - apply Z.eqb_neq in Htest. rewrite Htest in Hunlinked. congruence.
Qed.

(** X18.  When [PGSharedMemoryDelete] returns, the object of the given
    name existed before and is gone, every other object is as before, and
    the handle of the process is empty. *)
Theorem PGSharedMemoryDelete_removes_only_the_name (s : OS) (status : Z)
    (name : string) (p : Proc) (x : unit * Proc) :
  out (exec posix (PGSharedMemoryDelete cfg status name p) s) = Done x ->
  is_Some (objects s !! name) /\
  objects (final (exec posix (PGSharedMemoryDelete cfg status name p) s))
    !! name = None /\
  (forall other : string,
      other <> name ->
      objects (final (exec posix (PGSharedMemoryDelete cfg status name p) s))
        !! other = objects s !! other) /\
  UsedShmemSegAddr (snd x) = NULL /\
  UsedShmemSegSize (snd x) = 0.
Proof.
  intros Hdone.
  destruct (PGSharedMemoryDelete_objects s status name p x Hdone)
    as (-> & _ & Hwas & ->).
  split; [exact Hwas|]. split; [apply lookup_delete_eq|].
  split; [|split; reflexivity].
  intros other Hother. now apply lookup_delete_ne.
Qed.

(** X19.  Create, then delete: when [PGSharedMemoryCreate] returned and
    the exit hook [PGSharedMemoryDelete] then runs with the derived name
    and returns, the name is free again and every other object is as it
    was before the create; if the name was free before, the whole name
    space is as it was. *)
Theorem PGSharedMemoryCreate_then_Delete (s : OS)
    (size : Z) (makePrivate : bool) (port shim status : Z) (p : Proc)
    (hdr : Z) (p' : Proc) (y : unit * Proc) :
  out (exec posix (PGSharedMemoryCreate cfg size makePrivate port shim p) s)
    = Done (hdr, p') ->
  out (exec posix
         (PGSharedMemoryDelete cfg status (GenerateSHMName (DataDir p)) p')
         (final (exec posix
                   (PGSharedMemoryCreate cfg size makePrivate port shim p) s)))
    = Done y ->
  objects
    (final (exec posix
              (PGSharedMemoryDelete cfg status (GenerateSHMName (DataDir p)) p')
              (final (exec posix
                        (PGSharedMemoryCreate cfg size makePrivate port shim p) s))))
    = delete (GenerateSHMName (DataDir p)) (objects s) /\
  (objects s !! GenerateSHMName (DataDir p) = None ->
   objects
     (final (exec posix
               (PGSharedMemoryDelete cfg status (GenerateSHMName (DataDir p)) p')
               (final (exec posix
                         (PGSharedMemoryCreate cfg size makePrivate port shim p) s))))
     = objects s).
Proof.
  intros Hcreated Hdeleted.
  destruct (PGSharedMemoryDelete_objects _ _ _ _ _ Hdeleted)
    as (_ & _ & _ & ->).
  rewrite (PGSharedMemoryCreate_objects cfg s _ _ _ _ _ _ Hcreated).
  rewrite delete_insert_eq. split; [reflexivity|].
  intros Hfree. now apply delete_id.
Qed.

(** X20.  The exit hook is not idempotent: when [PGSharedMemoryDelete]
    has returned and is run once more, with no call made to fail, the
    second run stops with the [FATAL] report that the segment could not
    be removed, classified as a file-access error. *)
Theorem PGSharedMemoryDelete_twice_is_fatal (s : OS) (status status' : Z)
    (name : string) (p p' : Proc) :
  out (exec posix (PGSharedMemoryDelete cfg status name p) s)
    = Done (tt, p') ->
  next_call_fails
    (final (exec posix (PGSharedMemoryDelete cfg status name p) s)) = false ->
  out (exec posix (PGSharedMemoryDelete cfg status' name p')
         (final (exec posix (PGSharedMemoryDelete cfg status name p) s)))
    = Aborted (Ereport
                 {| elevel := FATAL;
                    sqlerrcode := Some ERRCODE_FILE_ACCESS;
                    message := "could not remove shared memory segment "
                                 +:+ dquote +:+ "%s" +:+ dquote +:+ ": %m";
                    message_args := [ArgStr name] |}).
Proof.
  intros Hdone Hok.
  destruct (PGSharedMemoryDelete_objects _ _ _ _ _ Hdone)
    as (Hp' & Hfit & _ & Hobj).
  injection Hp' as ->.
  assert (objects (final (exec posix (PGSharedMemoryDelete cfg status name p) s))
            !! name = None) as Hfree
    by (rewrite Hobj; apply lookup_delete_eq).
  set (s' := final (exec posix (PGSharedMemoryDelete cfg status name p) s)) in *.
  unfold PGSharedMemoryDelete.
  rewrite (PGSharedMemoryDetach_unmapped cfg (detached p))
    by (assumption || reflexivity).
  run_body. cbn [posix]. unfold fallible.
  pose proof (next_fault_objects s') as Hsame.
  pose proof (next_fault_unscheduled s' Hok) as Hnone.
  destruct (next_fault s') as [f s0]; cbn [fst snd] in Hsame, Hnone. subst f.
  unfold do_shm_unlink. rewrite Hsame, Hfree.
  reflexivity.
Qed.

End DeleteInNameSpace.

Section DeleteInNameSpaceWitness.
Import CString Name Sample Report Trace Posix Scenario.

Lemma PGSharedMemoryDelete_removes_only_the_name_witness :
  out removed = Done (tt, detached creator) /\
  objects (final removed) !! segment_name = None.
Proof.
  assert (out removed = Done (tt, detached creator)) as Hdone
    by (vm_compute; reflexivity).
  split; [exact Hdone|].
  apply (PGSharedMemoryDelete_removes_only_the_name production running 0
           segment_name creator (tt, detached creator) Hdone).
Defined.

Lemma PGSharedMemoryCreate_then_Delete_witness :
  out created = Done (fst (returned (0, attached) created), creator) /\
  out removed = Done (tt, detached creator) /\
  objects (final removed) = delete segment_name (objects (boot [])).
Proof.
  assert (out created = Done (fst (returned (0, attached) created), creator))
    as Hcreated by (vm_compute; reflexivity).
  assert (out removed = Done (tt, detached creator)) as Hdeleted
    by (vm_compute; reflexivity).
  split; [exact Hcreated|]. split; [exact Hdeleted|].
  destruct (PGSharedMemoryCreate_then_Delete production (boot [])
              1048576 false 5432 shim_variable 0 (postmaster data_directory HUGE_PAGES_OFF)
              (fst (returned (0, attached) created)) creator
              (tt, detached creator) Hcreated Hdeleted) as [Hobjects _].
  exact Hobjects.
Defined.

Lemma PGSharedMemoryDelete_twice_is_fatal_witness :
  out removed = Done (tt, detached creator) /\
  next_call_fails (final removed) = false /\
  out (exec posix
         (PGSharedMemoryDelete production 0 segment_name (detached creator))
         (final removed))
    = Aborted (Ereport (segment_report "remove" segment_name ENOENT)).
Proof.
  assert (out removed = Done (tt, detached creator)) as Hdone
    by (vm_compute; reflexivity).
  assert (next_call_fails (final removed) = false) as Hok
    by (vm_compute; reflexivity).
  split; [exact Hdone|]. split; [exact Hok|].
  apply (PGSharedMemoryDelete_twice_is_fatal production running 0 0
           segment_name creator (detached creator) Hdone Hok).
Defined.

End DeleteInNameSpaceWitness.

(** ** The loader macros *)

Section DynloaderFacts.
Import Dynloader Scenario.

(** X21.  On a platform whose [<dlfcn.h>] has no [RTLD_GLOBAL], the
    replacement value 0 has no effect: [pg_dlopen] passes the file name
    and exactly [RTLD_NOW] to [NTO_derived_dlopen], whatever value
    [RTLD_NOW] has; when [RTLD_NOW] is missing too, the mode is 1. *)
Theorem pg_dlopen_without_RTLD_GLOBAL
    (sys : dlfcn) (NTO_derived_dlopen : string -> Z -> Z) (f : string) :
  dlfcn_RTLD_GLOBAL sys = None ->
  pg_dlopen sys NTO_derived_dlopen f = NTO_derived_dlopen f (RTLD_NOW sys) /\
  (dlfcn_RTLD_NOW sys = None ->
   pg_dlopen sys NTO_derived_dlopen f = NTO_derived_dlopen f 1).
Proof.
  intros Hglobal. unfold pg_dlopen, RTLD_GLOBAL. rewrite Hglobal.
  cbn [default]. rewrite Z.lor_0_r. split; [reflexivity|].
  intros Hnow. unfold RTLD_NOW. now rewrite Hnow.
Qed.

Lemma pg_dlopen_without_RTLD_GLOBAL_witness :
  dlfcn_RTLD_GLOBAL old_dlfcn = None /\
  pg_dlopen old_dlfcn echo_mode "plpgsql.so" = 2.
Proof.
  split; [reflexivity|].
  apply (pg_dlopen_without_RTLD_GLOBAL old_dlfcn echo_mode "plpgsql.so"
           eq_refl).
Defined.

End DynloaderFacts.
